(** * AirLinker: signaling state machine and chunked transfer engine

    A shallow embedding of [script.js] (and of the second copy of the same
    script in the repository, which lacks flow control and retry) together with the properties
    of the connection-establishment and chunked-transfer protocol.

    Conventions of the embedding.
    - Byte counts, offsets and sizes are JavaScript numbers holding integers;
      they are modelled as [Z] (exact below 2^53).  The percentage
      computations are carried out in IEEE binary64, as the script does.
    - The browser objects ([RTCDataChannel], [RTCPeerConnection], the
      WebSocket, the DOM) are the environment.  What the script does to them
      is recorded as a list of events; what they answer is supplied by the
      environment (a schedule of buffer levels, a list of send outcomes, an
      interface for the peer connection).
    - An [await] is a suspension point: the environment moves on there and
      nowhere else. *)

From Stdlib Require Import ZArith Ascii String Bool Lia.
From Stdlib Require Import Floats.SpecFloat.
From Stdlib Require Import Strings.Byte.
From Stdlib Require Import DecimalString.
From Stdlib Require Import List.
Import ListNotations.
Open Scope string_scope.
Open Scope list_scope.
Open Scope Z_scope.

(* ===================================================================== *)
(** ** JavaScript numbers *)
(* ===================================================================== *)

Module Number.

(** IEEE 754 binary64: 53 bits of precision, exponents below 1024. *)
Definition prec : Z := 53.
Definition emax : Z := 1024.

Definition number : Type := spec_float.

Definition NaN : number := S754_nan.

(** The number denoted by an integer literal or an integer-valued
    property (rounded to nearest even beyond 2^53). *)
Definition of_Z (z : Z) : number := binary_normalize prec emax z 0 false.

(** [ToNumber]: [undefined] converts to [NaN]. *)
Definition ToNumber (v : option Z) : number :=
  match v with
  | None => NaN
  | Some z => of_Z z
  end.

Definition div : number -> number -> number := SFdiv prec emax.
Definition mul : number -> number -> number := SFmul prec emax.

(** The possible results of [Math.floor]. *)
Inductive integral : Type :=
| NotANumber
| Infinity (negative : bool)
| Int (z : Z).

Definition Math_floor (x : number) : integral :=
  match x with
  | S754_zero _ => Int 0
  | S754_infinity s => Infinity s
  | S754_nan => NotANumber
  | S754_finite s m e =>
      let v := if s then Z.neg m else Z.pos m in
      Int (if 0 <=? e then v * 2 ^ e else v / 2 ^ (- e))
  end.

(** [Math.floor((a / b) * 100)] *)
Definition percentage (a b : number) : integral :=
  Math_floor (mul (div a b) (of_Z 100)).

(** [a >= b] for an integer [a] and a possibly undefined integer [b]:
    a comparison with [NaN] is false. *)
Definition geb (a : Z) (b : option Z) : bool :=
  match b with
  | None => false
  | Some b => b <=? a
  end.

End Number.
Import Number.

(* ===================================================================== *)
(** ** Utilities ([formatBytes]) *)
(* ===================================================================== *)

Module Format.

(** [const units = ['B', 'KB', 'MB', 'GB']] *)
Definition units : list string := ["B"; "KB"; "MB"; "GB"].

(** [a >= b] on numbers: false when either side is [NaN]. *)
Definition geq (a b : number) : bool :=
  match SFcompare a b with
  | Some Gt | Some Eq => true
  | _ => false
  end.

(** [while (bytes >= 1024 && i < units.length - 1) { bytes /= 1024; i++; }]
    The loop makes at most [units.length - 1] turns, as [i] goes up by one
    in each; with that many turns allowed the test is false when they are
    used up. *)
Fixpoint scale (turns : nat) (bytes : number) (i : nat) : number * nat :=
  match turns with
  | O => (bytes, i)
  | S turns' =>
      if geq bytes (of_Z 1024) && (i <? length units - 1)%nat
      then scale turns' (div bytes (of_Z 1024)) (S i)
      else (bytes, i)
  end.

(** The decimal digits of an integer that is not negative. *)
Definition decimal (n : Z) : string :=
  NilZero.string_of_uint (N.to_uint (Z.to_N n)).

(** The digits of [n / 10], a point, one digit. *)
Definition tenths (n : Z) : string :=
  (decimal (n / 10) ++ "." ++ decimal (n mod 10))%string.

(** [x.toFixed(1)]: with [n] the integer for which [n / 10] is closest to
    the magnitude of [x], the larger one on a tie, the digits of [n] with a
    point before the last, after the sign of a negative [x].  From 10^21
    on [toFixed] answers in exponent notation, which is not modelled
    ([None]). *)
Definition toFixed1 (x : number) : option string :=
  match x with
  | S754_nan => Some "NaN"
  | S754_infinity s => Some (if s then "-Infinity" else "Infinity")
  | S754_zero _ => Some "0.0"
  | S754_finite s m e =>
      let sign := if s then "-" else "" in
      if 0 <=? e then
        if 10 ^ 21 <=? Z.pos m * 2 ^ e then None
        else Some (sign ++ tenths (10 * (Z.pos m * 2 ^ e)))%string
      else
        Some (sign
              ++ tenths ((20 * Z.pos m + 2 ^ (- e)) / (2 * 2 ^ (- e))))%string
  end.

(** [formatBytes(bytes)] *)
Definition formatBytes (bytes : number) : option string :=
  let (scaled, i) := scale (length units - 1) bytes 0 in
  match toFixed1 scaled with
  | Some text => Some (text ++ " " ++ nth i units "")%string
  | None => None
  end.

(** The unit [formatBytes] picks for an integer number of bytes. *)
Definition unitIndex (z : Z) : nat :=
  if z <? 1024 then 0
  else if z <? 1024 ^ 2 then 1
  else if z <? 1024 ^ 3 then 2
  else 3.

(** The binary64 number that holds a positive integer below 2^53: its
    mantissa of 53 bits and its exponent. *)
Definition mantissa (p : positive) : positive :=
  match (53 - Z.pos (digits2_pos p))%Z with
  | Z.pos k => Pos.iter xO p k
  | _ => p
  end.

Definition exponent (p : positive) : Z := Z.pos (digits2_pos p) - 53.

End Format.

(* ===================================================================== *)
(** ** Data model *)
(* ===================================================================== *)

Definition CHUNK_SIZE : Z := 16 * 1024.

Definition bytes : Type := list byte.

Definition byteLength (b : bytes) : Z := Z.of_nat (length b).

(** A [File]: a name and byte-addressable content. *)
Record File : Type := { name : string; content : bytes }.

Definition size (f : File) : Z := byteLength (content f).

(** [Blob.slice(start, end)]: negative indices count from the end, both
    indices are clamped to the size, an empty span gives an empty blob. *)
Definition relativeIndex (i sz : Z) : Z :=
  if i <? 0 then Z.max (sz + i) 0 else Z.min i sz.

Definition slice (f : File) (start stop : Z) : bytes :=
  let s := relativeIndex start (size f) in
  let e := relativeIndex stop (size f) in
  let span := Z.max (e - s) 0 in
  firstn (Z.to_nat span) (skipn (Z.to_nat s) (content f)).

(** The object [{ name, size }] carried by the metadata frame. *)
Record Metadata : Type := { meta_name : string; meta_size : Z }.

(** A message on the data channel.  A text frame is represented by what
    [JSON.parse] makes of its text: [JSON.stringify] on the sending side
    and [JSON.parse] on the receiving side are inverse on [{ name, size }],
    so the frame [sendFile] writes is the [Text] of its object.  Of a
    parsed value the receiver reads the properties [name] and [size] and
    nothing else; a property the value does not have reads as [undefined]
    ([None]).  Names are strings and sizes are integers where present. *)
Inductive Message : Type :=
| Text (meta : Metadata)
    (* the JSON text of an object with a string name and an integer size *)
| Binary (data : bytes)
    (* an ArrayBuffer *)
| NotJSON (text : string)
    (* a text outside the JSON grammar: JSON.parse throws a SyntaxError *)
| Null
    (* the JSON text null: reading a property of the value throws *)
| NoSize (declaredName : option string)
    (* the JSON text of any other value without a size: {}, an object
       with a name only, a number, a string, a boolean, an array *)
| NoName (declaredSize : Z).
    (* the JSON text of an object with an integer size and no name *)

(** The exceptions the transfer code leaves uncaught. *)
Inductive Exception : Type := SyntaxError | TypeError.

(** Status lines passed to [log] and [console.warn] by the transfer code. *)
Inductive Status : Type :=
| Sending (file_name : string) (file_size : Z)
    (* `Sending ${file.name} (${formatBytes(file.size)})...` *)
| FileSent
    (* 'File sent successfully!' *)
| SendFailed
    (* 'Send failed, retrying chunk...' *)
| Receiving (file_name : string) (file_size : Z)
    (* `Receiving ${meta.name} (${formatBytes(meta.size)})...` *)
| FileSaved.
    (* 'File received and saved.' *)

(** What the transfer code does to its environment. *)
Inductive Event : Type :=
| Write (buffered : Z) (m : Message) (ok : bool)
    (* dc.send(m), called while dc.bufferedAmount = buffered;
       ok = false when the call threw *)
| Timeout (ms : Z)
    (* await new Promise(resolve => setTimeout(resolve, ms)) *)
| Progress (pct : integral)
    (* the progress bar and its label are set to pct + '%' *)
| Log (s : Status)
| Download (blob : bytes) (filename : string)
    (* new Blob(receivedChunks) offered for download under filename *)
| Uncaught (err : Exception).
    (* the event handler ended by throwing err: nothing in the script
       catches it, the statements after the throwing one did not run *)

(** Whether an async function ran to its end or threw. *)
Inductive Completion : Type := Resolved | Rejected.

(* ===================================================================== *)
(** ** The data channel seen from the sender *)
(* ===================================================================== *)

Inductive Outcome : Type := Returns | Throws.

(** [bufferedAmount] is the current value of [dc.bufferedAmount];
    [schedule] lists the values it takes after each coming suspension
    point (once the list is used up the buffer has drained to 0);
    [outcomes] lists how the coming calls of [dc.send] end (once the list
    is used up every call returns). *)
Record Channel : Type := {
  bufferedAmount : Z;
  schedule : list Z;
  outcomes : list Outcome
}.

(** A run of the sender: the channel and the events so far. *)
Record Run : Type := { dc : Channel; events : list Event }.

Definition emit (e : Event) (r : Run) : Run :=
  {| dc := dc r; events := events r ++ [e] |}.

(** A suspension point ([await]). *)
Definition suspend (r : Run) : Run :=
  match schedule (dc r) with
  | [] =>
      {| dc := {| bufferedAmount := 0; schedule := [];
                  outcomes := outcomes (dc r) |};
         events := events r |}
  | b :: rest =>
      {| dc := {| bufferedAmount := b; schedule := rest;
                  outcomes := outcomes (dc r) |};
         events := events r |}
  end.

(** [dc.send(m)]: the boolean tells whether the call returned. *)
Definition dc_send (m : Message) (r : Run) : bool * Run :=
  let c := dc r in
  match outcomes c with
  | Throws :: rest =>
      (false,
       {| dc := {| bufferedAmount := bufferedAmount c;
                   schedule := schedule c; outcomes := rest |};
          events := events r ++ [Write (bufferedAmount c) m false] |})
  | Returns :: rest =>
      (true,
       {| dc := {| bufferedAmount := bufferedAmount c;
                   schedule := schedule c; outcomes := rest |};
          events := events r ++ [Write (bufferedAmount c) m true] |})
  | [] =>
      (true,
       {| dc := c;
          events := events r ++ [Write (bufferedAmount c) m true] |})
  end.

(* ===================================================================== *)
(** ** Send path ([script.js]) *)
(* ===================================================================== *)

(** [while (dc.bufferedAmount > 5 * CHUNK_SIZE)
       await new Promise(resolve => setTimeout(resolve, 50));]
    Every turn of the loop consumes one entry of the schedule. *)
Fixpoint pollBuffer (sched : list Z) (cur : Z) (out : list Outcome)
    (evs : list Event) : Run :=
  if cur >? 5 * CHUNK_SIZE then
    match sched with
    | [] =>
        {| dc := {| bufferedAmount := 0; schedule := []; outcomes := out |};
           events := evs ++ [Timeout 50] |}
    | b :: rest => pollBuffer rest b out (evs ++ [Timeout 50])
    end
  else
    {| dc := {| bufferedAmount := cur; schedule := sched; outcomes := out |};
       events := evs |}.

Definition waitForBuffer (r : Run) : Run :=
  pollBuffer (schedule (dc r)) (bufferedAmount (dc r)) (outcomes (dc r))
    (events r).

(** [Math.floor((offset / file.size) * 100)] *)
Definition sendPct (offset total : Z) : integral :=
  percentage (of_Z offset) (of_Z total).

(** The [while (offset < file.size)] loop; one unit of fuel per turn. *)
Fixpoint sendLoop (fuel : nat) (file : File) (offset : Z) (r : Run)
    : option Run :=
  match fuel with
  | O => None
  | S fuel' =>
      if offset <? size file then
        (* const chunk = await file.slice(offset, offset + CHUNK_SIZE)
                                   .arrayBuffer(); *)
        let chunk := slice file offset (offset + CHUNK_SIZE) in
        let r := suspend r in
        (* Wait if the buffer is too full *)
        let r := waitForBuffer r in
        match dc_send (Binary chunk) r with
        | (true, r) =>
            let offset := offset + CHUNK_SIZE in
            (* Update progress *)
            let pct := sendPct offset (size file) in
            sendLoop fuel' file offset (emit (Progress pct) r)
        | (false, r) =>
            (* catch: warn, wait 200 ms, continue *)
            let r := emit (Log SendFailed) r in
            let r := suspend (emit (Timeout 200) r) in
            sendLoop fuel' file offset r
        end
      else Some r
  end.

(** [sendFile]: [fileToSend] and [dc] are the script's globals, [None]
    standing for an unset (falsy) variable.  The result is [None] when the
    fuel does not suffice. *)
Definition sendFile (fuel : nat) (fileToSend : option File)
    (channel : option Channel) : option (list Event * Completion) :=
  match fileToSend, channel with
  | Some file, Some c =>
      let r := {| dc := c; events := [] |} in
      let r := emit (Log (Sending (name file) (size file))) r in
      let metadata := {| meta_name := name file; meta_size := size file |} in
      match dc_send (Text metadata) r with
      | (false, r) => Some (events r, Rejected)
      | (true, r) =>
          match sendLoop fuel file 0 r with
          | Some r => Some (events (emit (Log FileSent) r), Resolved)
          | None => None
          end
      end
  | _, _ => Some ([], Resolved)
  end.

(** [const totalChunks = Math.ceil(file.size / CHUNK_SIZE)]; the division
    by a power of two is exact. *)
Definition totalChunks (file : File) : Z :=
  (size file + CHUNK_SIZE - 1) / CHUNK_SIZE.

(** The messages that reached the wire, and the binary frames among them. *)
Fixpoint wire (evs : list Event) : list Message :=
  match evs with
  | [] => []
  | Write _ m true :: rest => m :: wire rest
  | _ :: rest => wire rest
  end.

Fixpoint binaryFrames (ms : list Message) : list bytes :=
  match ms with
  | [] => []
  | Binary b :: rest => b :: binaryFrames rest
  | _ :: rest => binaryFrames rest
  end.

Fixpoint progress (evs : list Event) : list integral :=
  match evs with
  | [] => []
  | Progress p :: rest => p :: progress rest
  | _ :: rest => progress rest
  end.

Fixpoint totalLength (frames : list bytes) : Z :=
  match frames with
  | [] => 0
  | b :: rest => byteLength b + totalLength rest
  end.

(* ===================================================================== *)
(** ** Receive path ([script.js]) *)
(* ===================================================================== *)

(** The array [receivedChunks] with its two expando properties; a property
    that was never assigned is [undefined] ([None]). *)
Record ReceivedChunks : Type := {
  chunks : list bytes;
  expectedName : option string;
  expectedSize : option Z
}.

(** [let receivedChunks = [];] *)
Definition noChunks : ReceivedChunks :=
  {| chunks := []; expectedName := None; expectedSize := None |}.

(** [receivedChunks.reduce((a, b) => a + b.byteLength, 0)] *)
Definition reduceByteLength (l : list bytes) : Z :=
  fold_left (fun a b => a + byteLength b) l 0.

(** [receivedChunks.expectedName || 'download.bin']: [undefined] and the
    empty string are falsy. *)
Definition downloadName (n : option string) : string :=
  match n with
  | None => "download.bin"
  | Some s => if (s =? "")%string then "download.bin" else s
  end.

(** [Math.floor((receivedSize / receivedChunks.expectedSize) * 100)] *)
Definition receivePct (receivedSize : Z) (expected : option Z) : integral :=
  percentage (of_Z receivedSize) (ToNumber expected).

(** [handleIncomingChunk(e)]: the new value of [receivedChunks] and the
    events of this call.  (The toggling of the sender and receiver views
    is not part of the events.)  In the text branch
    [const meta = JSON.parse(e.data)] comes first, [receivedChunks = []]
    second, then the two properties are copied, and [formatBytes(meta.size)]
    is evaluated before the progress bar is reset and the line is logged;
    a statement that throws ends the handler where it stands. *)
Definition handleIncomingChunk (receivedChunks : ReceivedChunks)
    (e : Message) : ReceivedChunks * list Event :=
  match e with
  | Text meta =>
      (* --- Metadata (first message) *)
      ({| chunks := [];
          expectedName := Some (meta_name meta);
          expectedSize := Some (meta_size meta) |},
       [Progress (Int 0); Log (Receiving (meta_name meta) (meta_size meta))])
  | NotJSON _ =>
      (* JSON.parse(e.data) throws: no assignment has run *)
      (receivedChunks, [Uncaught SyntaxError])
  | Null =>
      (* receivedChunks = [] has run; meta.name throws on null *)
      ({| chunks := []; expectedName := None; expectedSize := None |},
       [Uncaught TypeError])
  | NoSize declaredName =>
      (* the three assignments have run; formatBytes(undefined) throws at
         bytes.toFixed *)
      ({| chunks := []; expectedName := declaredName; expectedSize := None |},
       [Uncaught TypeError])
  | NoName declaredSize =>
      (* meta.name is undefined and is printed as such *)
      ({| chunks := []; expectedName := None;
          expectedSize := Some declaredSize |},
       [Progress (Int 0); Log (Receiving "undefined" declaredSize)])
  | Binary data =>
      (* --- Binary data chunk *)
      let receivedChunks :=
        {| chunks := chunks receivedChunks ++ [data];
           expectedName := expectedName receivedChunks;
           expectedSize := expectedSize receivedChunks |} in
      let receivedSize := reduceByteLength (chunks receivedChunks) in
      let pct := receivePct receivedSize (expectedSize receivedChunks) in
      (* --- When done *)
      if geb receivedSize (expectedSize receivedChunks) then
        (receivedChunks,
         [Progress pct;
          Download (concat (chunks receivedChunks))
                   (downloadName (expectedName receivedChunks));
          Log FileSaved])
      else (receivedChunks, [Progress pct])
  end.

(** The handler applied to the messages of a channel in arrival order. *)
Fixpoint receive (receivedChunks : ReceivedChunks) (msgs : list Message)
    : ReceivedChunks * list Event :=
  match msgs with
  | [] => (receivedChunks, [])
  | m :: rest =>
      let (rc, evs) := handleIncomingChunk receivedChunks m in
      let (rc', evs') := receive rc rest in
      (rc', evs ++ evs')
  end.

(** The terminal "received" events of a trace. *)
Fixpoint downloads (evs : list Event) : list (bytes * string) :=
  match evs with
  | [] => []
  | Download b n :: rest => (b, n) :: downloads rest
  | _ :: rest => downloads rest
  end.

(* ===================================================================== *)
(** ** The second copy of the script *)
(* ===================================================================== *)

Module Basic.

(** The send loop has neither the buffer check nor the [try]/[catch]: an
    exception of [dc.send] ends [sendFile]. *)
Fixpoint sendLoop (fuel : nat) (file : File) (offset : Z) (r : Run)
    : option (Run * Completion) :=
  match fuel with
  | O => None
  | S fuel' =>
      if offset <? size file then
        let chunk := slice file offset (offset + CHUNK_SIZE) in
        let r := suspend r in
        match dc_send (Binary chunk) r with
        | (true, r) =>
            let offset := offset + CHUNK_SIZE in
            let pct := sendPct offset (size file) in
            sendLoop fuel' file offset (emit (Progress pct) r)
        | (false, r) => Some (r, Rejected)
        end
      else Some (r, Resolved)
  end.

Definition sendFile (fuel : nat) (fileToSend : option File)
    (channel : option Channel) : option (list Event * Completion) :=
  match fileToSend, channel with
  | Some file, Some c =>
      let r := {| dc := c; events := [] |} in
      let r := emit (Log (Sending (name file) (size file))) r in
      let metadata :=
        {| meta_name := name file; meta_size := size file |} in
      match dc_send (Text metadata) r with
      | (false, r) => Some (events r, Rejected)
      | (true, r) =>
          match sendLoop fuel file 0 r with
          | Some (r, Resolved) =>
              Some (events (emit (Log FileSent) r), Resolved)
          | Some (r, Rejected) => Some (events r, Rejected)
          | None => None
          end
      end
  | _, _ => Some ([], Resolved)
  end.

Definition saveReceivedFile (receivedChunks : ReceivedChunks)
    : list Event :=
  [Download (concat (chunks receivedChunks))
            (downloadName (expectedName receivedChunks));
   Log FileSaved].

Definition handleIncomingChunk (receivedChunks : ReceivedChunks)
    (e : Message) : ReceivedChunks * list Event :=
  match e with
  | Text meta =>
      (* The first message is metadata (filename + size) *)
      ({| chunks := [];
          expectedName := Some (meta_name meta);
          expectedSize := Some (meta_size meta) |},
       [Log (Receiving (meta_name meta) (meta_size meta));
        Progress (Int 0)])
  | NotJSON _ =>
      (* JSON.parse(e.data) throws: no assignment has run *)
      (receivedChunks, [Uncaught SyntaxError])
  | Null =>
      (* receivedChunks = [] has run; meta.name throws on null *)
      ({| chunks := []; expectedName := None; expectedSize := None |},
       [Uncaught TypeError])
  | NoSize declaredName =>
      (* the three assignments have run; formatBytes(undefined) throws
         inside the argument of log *)
      ({| chunks := []; expectedName := declaredName; expectedSize := None |},
       [Uncaught TypeError])
  | NoName declaredSize =>
      ({| chunks := []; expectedName := None;
          expectedSize := Some declaredSize |},
       [Log (Receiving "undefined" declaredSize); Progress (Int 0)])
  | Binary data =>
      (* Binary chunk received *)
      let receivedChunks :=
        {| chunks := chunks receivedChunks ++ [data];
           expectedName := expectedName receivedChunks;
           expectedSize := expectedSize receivedChunks |} in
      let receivedSize := reduceByteLength (chunks receivedChunks) in
      let pct := receivePct receivedSize (expectedSize receivedChunks) in
      (* When finished *)
      if geb receivedSize (expectedSize receivedChunks) then
        (receivedChunks, [Progress pct] ++ saveReceivedFile receivedChunks)
      else (receivedChunks, [Progress pct])
  end.

Fixpoint receive (receivedChunks : ReceivedChunks) (msgs : list Message)
    : ReceivedChunks * list Event :=
  match msgs with
  | [] => (receivedChunks, [])
  | m :: rest =>
      let (rc, evs) := handleIncomingChunk receivedChunks m in
      let (rc', evs') := receive rc rest in
      (rc', evs ++ evs')
  end.

End Basic.

(* ===================================================================== *)
(** ** Signaling ([connectWS], [handleSignal]) *)
(* ===================================================================== *)

Module Signaling.

(** The values of the connection state that decide the handling of
    negotiation messages. *)
Inductive SignalingState : Type :=
| state_new
| have_local_offer
| have_remote_offer
| stable.

Definition is_stable (s : SignalingState) : bool :=
  match s with
  | stable => true
  | _ => false
  end.

Inductive SdpType : Type := offer | answer.

(** [{ type, sdp }] *)
Record Description : Type := { desc_type : SdpType; desc_sdp : string }.

(** An ICE candidate descriptor (its candidate line). *)
Definition Candidate : Type := string.

(** A signaling envelope: the JSON object on the relay connection.  A
    field that is absent reads as [undefined] ([None]). *)
Record Envelope : Type := {
  msg_type : option string;
  msg_sdp : option string;
  msg_candidate : option Candidate;
  msg_sessionId : option string
}.

(** [msg.type === t] *)
Definition type_is (msg : Envelope) (t : string) : bool :=
  match msg_type msg with
  | Some s => (s =? t)%string
  | None => false
  end.

(** Truthiness of a string-valued field: [undefined] and [''] are
    falsy. *)
Definition truthy (v : option string) : bool :=
  match v with
  | Some s => negb (s =? "")%string
  | None => false
  end.

Definition value (v : option string) : string :=
  match v with
  | Some s => s
  | None => ""
  end.

(** The interface of the platform's peer connection that [handleSignal]
    consumes.  An operation answering [None] is a promise that
    rejects. *)
Class PeerConnection (PC : Type) : Type := {
  signalingState : PC -> SignalingState;
  createOffer : PC -> option Description;
  createAnswer : PC -> option Description;
  setLocalDescription : Description -> PC -> option PC;
  setRemoteDescription : Description -> PC -> option PC;
  addIceCandidate : Candidate -> PC -> option PC
}.

Inductive Console : Type :=
| console_log (s : string)
| console_warn (s : string)
| console_error (s : string).

(** The script's globals and what it has done so far: [ws] holds the
    envelopes handed to [ws.send], [dc] tells whether a data channel
    object exists, [unhandled] counts the promises of [handleSignal] that
    rejected (nothing awaits them). *)
Record Client (PC : Type) : Type := {
  pc : PC;
  dc : bool;
  sessionId : option string;
  ws : list Envelope;
  console : list Console;
  unhandled : nat
}.
Arguments pc {PC}.
Arguments dc {PC}.
Arguments sessionId {PC}.
Arguments ws {PC}.
Arguments console {PC}.
Arguments unhandled {PC}.

(** What [JSON.parse] can give for a signaling payload: [null], or a
    value whose fields are read (a primitive reads as an object without
    fields). *)
Inductive JsValue : Type :=
| JsNull
| JsObject (msg : Envelope).

(** [e.data]: a string, or a Blob whose [text()] is the string. *)
Inductive WsData : Type :=
| WsString (s : string)
| WsBlob (text : string).

(** [typeof e.data === 'string' ? e.data : await e.data.text()] *)
Definition payload (e : WsData) : string :=
  match e with
  | WsString s => s
  | WsBlob text => text
  end.

Section Handlers.

Context {PC : Type} `{PeerConnection PC}.

Definition set_pc (p : PC) (st : Client PC) : Client PC :=
  {| pc := p; dc := dc st; sessionId := sessionId st; ws := ws st;
     console := console st; unhandled := unhandled st |}.

Definition print (c : Console) (st : Client PC) : Client PC :=
  {| pc := pc st; dc := dc st; sessionId := sessionId st; ws := ws st;
     console := console st ++ [c]; unhandled := unhandled st |}.

(** [log(msg)] *)
Definition log (s : string) : Client PC -> Client PC :=
  print (console_log s).

(** [ws.send(JSON.stringify(msg))] *)
Definition ws_send (msg : Envelope) (st : Client PC) : Client PC :=
  {| pc := pc st; dc := dc st; sessionId := sessionId st;
     ws := ws st ++ [msg];
     console := console st; unhandled := unhandled st |}.

Definition unhandledRejection (st : Client PC) : Client PC :=
  {| pc := pc st; dc := dc st; sessionId := sessionId st; ws := ws st;
     console := console st; unhandled := S (unhandled st) |}.

(** [const x = await p; k x]: a rejection ends the async function. *)
Definition await {A : Type} (p : option A) (st : Client PC)
    (k : A -> Client PC * Completion) : Client PC * Completion :=
  match p with
  | Some a => k a
  | None => (st, Rejected)
  end.

(** [handleSignal(msg)], run to its end before the next message is
    looked at. *)
Definition handleSignal (msg : Envelope) (st : Client PC)
    : Client PC * Completion :=
  (* Sender: receiver joined *)
  if type_is msg "session-joined" then
    let st := log "Receiver connected, sending offer..." st in
    await (createOffer (pc st)) st (fun o =>
    await (setLocalDescription o (pc st)) st (fun p =>
    let st := set_pc p st in
    let st := ws_send {| msg_type := Some "offer";
                         msg_sdp := Some (desc_sdp o);
                         msg_candidate := None;
                         msg_sessionId := sessionId st |} st in
    (st, Resolved)))
  (* Receiver: got offer (only receiver handles this) *)
  else if type_is msg "offer" && truthy (msg_sdp msg) then
    if dc st then
      (print (console_warn "Ignoring duplicate offer on sender side") st,
       Resolved)
    else
      let st := log "Received offer from sender" st in
      let remote :=
        {| desc_type := offer; desc_sdp := value (msg_sdp msg) |} in
      await (setRemoteDescription remote (pc st)) st (fun p =>
      let st := set_pc p st in
      await (createAnswer (pc st)) st (fun a =>
      await (setLocalDescription a (pc st)) st (fun p =>
      let st := set_pc p st in
      let st := ws_send {| msg_type := Some "answer";
                           msg_sdp := Some (desc_sdp a);
                           msg_candidate := None;
                           msg_sessionId := sessionId st |} st in
      (log "Answer sent back to sender" st, Resolved))))
  (* Sender: got answer *)
  else if type_is msg "answer" && truthy (msg_sdp msg) then
    (* Avoid setting remote description twice *)
    if is_stable (signalingState (pc st)) then
      (print (console_warn "Ignoring duplicate answer (already stable)")
             st,
       Resolved)
    else
      let st := log "Received answer, establishing connection..." st in
      let remote :=
        {| desc_type := answer; desc_sdp := value (msg_sdp msg) |} in
      await (setRemoteDescription remote (pc st)) st (fun p =>
      (log "Peer connection established" (set_pc p st), Resolved))
  (* ICE candidates *)
  else
    match type_is msg "ice-candidate", msg_candidate msg with
    | true, Some c =>
        match addIceCandidate c (pc st) with
        | Some p => (set_pc p st, Resolved)
        | None =>
            (print (console_error "Error adding ICE candidate:") st,
             Resolved)
        end
    | _, _ => (st, Resolved)
    end.

(** [ws.onmessage].  [JSON_parse] is the platform's parser: [None] is
    a [SyntaxError].  [handleSignal(msg)] is called without [await], so
    the [catch] sees only what the parser throws. *)
Definition onmessage (JSON_parse : string -> option JsValue)
    (e : WsData) (st : Client PC) : Client PC :=
  let data := payload e in
  match JSON_parse data with
  | Some JsNull =>
      (* msg.type throws inside the async function *)
      unhandledRejection st
  | Some (JsObject msg) =>
      match handleSignal msg st with
      | (st, Resolved) => st
      | (st, Rejected) => unhandledRejection st
      end
  | None =>
      print (console_warn "Non-JSON WebSocket message ignored:") st
  end.

(** The messages of the relay connection, handled in arrival order. *)
Fixpoint messages (JSON_parse : string -> option JsValue)
    (es : list WsData) (st : Client PC) : Client PC :=
  match es with
  | [] => st
  | e :: rest => messages JSON_parse rest (onmessage JSON_parse e st)
  end.

End Handlers.

(** Modelled from the spec: the peer connection of the platform, as the
    state machine of section 4.2 describes it: new, then have-local-offer
    (a local offer is set) or have-remote-offer (a remote offer is set),
    then stable (the matching answer is applied); transitions are
    one-directional and there is no renegotiation.  A description applied
    in any other state and a candidate added before a remote description
    are rejected. *)
Record Peer : Type := {
  state : SignalingState;
  localDescription : option Description;
  remoteDescription : option Description;
  candidates : list Candidate;
  ownSdp : string
}.

Definition peer_setLocalDescription (d : Description) (p : Peer)
    : option Peer :=
  match desc_type d, state p with
  | offer, state_new =>
      Some {| state := have_local_offer; localDescription := Some d;
              remoteDescription := remoteDescription p;
              candidates := candidates p; ownSdp := ownSdp p |}
  | answer, have_remote_offer =>
      Some {| state := stable; localDescription := Some d;
              remoteDescription := remoteDescription p;
              candidates := candidates p; ownSdp := ownSdp p |}
  | _, _ => None
  end.

Definition peer_setRemoteDescription (d : Description) (p : Peer)
    : option Peer :=
  match desc_type d, state p with
  | offer, state_new =>
      Some {| state := have_remote_offer;
              localDescription := localDescription p;
              remoteDescription := Some d;
              candidates := candidates p; ownSdp := ownSdp p |}
  | answer, have_local_offer =>
      Some {| state := stable;
              localDescription := localDescription p;
              remoteDescription := Some d;
              candidates := candidates p; ownSdp := ownSdp p |}
  | _, _ => None
  end.

Definition peer_addIceCandidate (c : Candidate) (p : Peer) : option Peer :=
  match remoteDescription p with
  | None => None
  | Some _ =>
      Some {| state := state p; localDescription := localDescription p;
              remoteDescription := remoteDescription p;
              candidates := candidates p ++ [c]; ownSdp := ownSdp p |}
  end.

#[export] Instance PeerConnection_Peer : PeerConnection Peer := {|
  signalingState := state;
  createOffer := fun p =>
    match state p with
    | state_new => Some {| desc_type := offer; desc_sdp := ownSdp p |}
    | _ => None
    end;
  createAnswer := fun p =>
    match state p with
    | have_remote_offer =>
        Some {| desc_type := answer; desc_sdp := ownSdp p |}
    | _ => None
    end;
  setLocalDescription := peer_setLocalDescription;
  setRemoteDescription := peer_setRemoteDescription;
  addIceCandidate := peer_addIceCandidate
|}.

(** [new RTCPeerConnection(...)] *)
Definition newPeer (sdp : string) : Peer :=
  {| state := state_new; localDescription := None;
     remoteDescription := None; candidates := []; ownSdp := sdp |}.

(** *** Vocabulary of the signaling properties *)

(** The same envelope under another session id. *)
Definition withSessionId (sid : option string) (msg : Envelope) : Envelope :=
  {| msg_type := msg_type msg; msg_sdp := msg_sdp msg;
     msg_candidate := msg_candidate msg; msg_sessionId := sid |}.

(** A parsed payload under another session id. *)
Definition relabel (sid : option string) (v : JsValue) : JsValue :=
  match v with
  | JsNull => JsNull
  | JsObject msg => JsObject (withSessionId sid msg)
  end.

(** The specification's reading of session scoping: an envelope of
    another session changes nothing. *)
Definition ignoresForeignSession {PC : Type} `{PeerConnection PC}
    (msg : Envelope) (st : Client PC) : Prop :=
  msg_sessionId msg <> sessionId st -> handleSignal msg st = (st, Resolved).

(** Two clients that differ in what was printed at most. *)
Definition sameButConsole {PC : Type} (a b : Client PC) : Prop :=
  pc a = pc b /\ dc a = dc b /\ sessionId a = sessionId b /\
  ws a = ws b /\ unhandled a = unhandled b.

(** Inputs used to exercise the definitions: a sender right after
    [startSender], the same sender once the receiver has joined and the
    offer is out, an answer of another session, and a parser that accepts
    two texts and refuses every other one. *)
Definition startedSender : Client Peer :=
  {| pc := newPeer "v=0 sender";
     dc := true;
     sessionId := Some "k3x9q2a";
     ws := [{| msg_type := Some "create-session"; msg_sdp := None;
               msg_candidate := None; msg_sessionId := Some "k3x9q2a" |}];
     console := [console_log "Connected to signaling server";
                 console_log "Session created, waiting for receiver..."];
     unhandled := 0 |}.

Definition sessionJoined : Envelope :=
  {| msg_type := Some "session-joined"; msg_sdp := None;
     msg_candidate := None; msg_sessionId := Some "k3x9q2a" |}.

Definition offering : Client Peer :=
  fst (handleSignal sessionJoined startedSender).

Definition foreignAnswer : Envelope :=
  {| msg_type := Some "answer"; msg_sdp := Some "v=0 stranger";
     msg_candidate := None; msg_sessionId := Some "zzzzzzz" |}.

Definition doubleQuote : string := String "034"%char EmptyString.

(** [{"type":"session-joined"}] *)
Definition joinedText : string :=
  ("{" ++ doubleQuote ++ "type" ++ doubleQuote ++ ":"
       ++ doubleQuote ++ "session-joined" ++ doubleQuote ++ "}")%string.

Definition parseKnownTexts (s : string) : option JsValue :=
  if (s =? "null")%string then Some JsNull
  else if (s =? joinedText)%string then
    Some (JsObject {| msg_type := Some "session-joined"; msg_sdp := None;
                      msg_candidate := None; msg_sessionId := None |})
  else None.

End Signaling.

(* ===================================================================== *)
(** ** Starting a session ([startSender], [startReceiver], [createPeer]) *)
(* ===================================================================== *)

Module Session.

Import Signaling.

(** How [connectWS] ends: [ws.onopen] resolves the promise, [ws.onerror]
    rejects it. *)
Inductive Opening : Type := opens | fails.

(** [s.slice(from, to)] for indices that are not negative. *)
Definition slice (s : string) (from to : nat) : string :=
  substring from (to - from) s.

(** The link shown as a QR code:
    [`https://airlinker.netlify.app/?id=${sessionId}`] *)
Definition joinLink (id : string) : string :=
  ("https://airlinker.netlify.app/?id=" ++ id)%string.

(** [startSender()].  [relay] tells how the connection to the relay ends,
    [fresh] is the connection [new RTCPeerConnection(...)] gives and
    [randomText] stands for [Math.random().toString(36)].  The result is
    [None] when [connectWS] rejects: nothing after the first [await] runs.
    Otherwise it holds the globals as [startSender] leaves them and the
    link passed to [renderQR]. *)
Definition startSender {PC : Type} (relay : Opening) (fresh : PC)
    (randomText : string) : option (Client PC * string) :=
  match relay with
  | fails => None
  | opens =>
      (* ws.onopen *)
      let console0 := [console_log "Connected to signaling server"] in
      (* createPeer(); createDataChannel(); *)
      let id := slice randomText 2 9 in
      let st :=
        {| pc := fresh; dc := true; sessionId := Some id;
           ws := [{| msg_type := Some "create-session"; msg_sdp := None;
                     msg_candidate := None; msg_sessionId := Some id |}];
           console := console0; unhandled := 0 |} in
      let link := joinLink id in
      Some (print (console_log "Session created, waiting for receiver...")
                  st,
            link)
  end.

(** [startReceiver(id)] *)
Definition startReceiver {PC : Type} (relay : Opening) (fresh : PC)
    (id : string) : option (Client PC) :=
  match relay with
  | fails => None
  | opens =>
      let console0 := [console_log "Connected to signaling server"] in
      let st :=
        {| pc := fresh; dc := false; sessionId := Some id;
           ws := [{| msg_type := Some "join-session"; msg_sdp := None;
                     msg_candidate := None; msg_sessionId := Some id |}];
           console := console0; unhandled := 0 |} in
      Some (print (console_log "Joined session, waiting for offer...") st)
  end.

(** [pc.onicecandidate]: [e.candidate] is [null] ([None]) when the
    gathering has ended. *)
Definition onicecandidate {PC : Type} (candidate : option Candidate)
    (st : Client PC) : Client PC :=
  match candidate with
  | Some c =>
      {| pc := pc st; dc := dc st; sessionId := sessionId st;
         ws := ws st ++ [{| msg_type := Some "ice-candidate";
                            msg_sdp := None;
                            msg_candidate := Some c;
                            msg_sessionId := sessionId st |}];
         console := console st; unhandled := unhandled st |}
  | None => st
  end.

(** [pc.ondatachannel]: [dc = e.channel]. *)
Definition ondatachannel {PC : Type} (st : Client PC) : Client PC :=
  {| pc := pc st; dc := true; sessionId := sessionId st; ws := ws st;
     console := console st; unhandled := unhandled st |}.

(** The envelopes that [handleSignal] acts upon: a [session-joined], an
    [offer] or an [answer] carrying an SDP, an [ice-candidate] carrying a
    candidate. *)
Definition actionable (msg : Envelope) : bool :=
  type_is msg "session-joined"
  || (type_is msg "offer" && truthy (msg_sdp msg))
  || (type_is msg "answer" && truthy (msg_sdp msg))
  || (type_is msg "ice-candidate"
      && match msg_candidate msg with Some _ => true | None => false end).

(** An envelope that [handleSignal] may send: an offer or an answer tagged
    with the given session id. *)
Definition negotiationOf (sid : option string) (msg : Envelope) : Prop :=
  (msg_type msg = Some "offer" \/ msg_type msg = Some "answer") /\
  msg_sessionId msg = sid.


(** The envelope a client sent last. *)
Definition lastEnvelope {PC : Type} (st : Client PC) : Envelope :=
  last (ws st)
       {| msg_type := None; msg_sdp := None; msg_candidate := None;
          msg_sessionId := None |}.


End Session.

(* ===================================================================== *)
(** ** Vocabulary of the properties *)
(* ===================================================================== *)

(** The [k]-th sequential slice of a file. *)
Definition chunkAt (file : File) (k : nat) : bytes :=
  slice file (Z.of_nat k * CHUNK_SIZE) (Z.of_nat k * CHUNK_SIZE + CHUNK_SIZE).

(** The slices [k], [k+1], ..., [k+n-1]. *)
Definition chunksFrom (file : File) (k n : nat) : list bytes :=
  map (chunkAt file) (seq k n).

(** Enough fuel for the send loop: every turn either sends the next chunk
    or uses up one recorded outcome of [dc.send]. *)
Definition enoughFuel (file : File) (c : Channel) : nat :=
  S (Z.to_nat (totalChunks file) + length (outcomes c)).

(** A channel on which no call of [dc.send] throws. *)
Definition neverThrows (c : Channel) : Prop :=
  Forall (fun o => o = Returns) (outcomes c).

(** The buffer levels at which binary frames were handed to [dc.send]. *)
Fixpoint chunkWriteLevels (evs : list Event) : list Z :=
  match evs with
  | [] => []
  | Write b (Binary _) _ :: rest => b :: chunkWriteLevels rest
  | _ :: rest => chunkWriteLevels rest
  end.

(** The number of leading buffer levels above the threshold, starting with
    the current one. *)
Fixpoint fullPrefix (cur : Z) (sched : list Z) : nat :=
  if cur >? 5 * CHUNK_SIZE then
    match sched with
    | [] => 1
    | b :: rest => S (fullPrefix b rest)
    end
  else 0.

Definition frames (evs : list Event) : list bytes := binaryFrames (wire evs).

(** The binary frames of a trace are the sequential slices of the file:
    as many as [ceil(size / CHUNK_SIZE)], adding up to the size, and
    concatenating to the content. *)
Definition carriesFile (file : File) (evs : list Event) : Prop :=
  frames evs = chunksFrom file 0 (Z.to_nat (totalChunks file)) /\
  Z.of_nat (length (frames evs)) = totalChunks file /\
  totalLength (frames evs) = size file /\
  concat (frames evs) = content file.

(** The percentages of the offsets reached after chunks [k], ...,
    [k+n-1]: the offset after chunk [i] is [(i + 1) * CHUNK_SIZE]. *)
Definition offsetPercentages (file : File) (k n : nat) : list integral :=
  map (fun i => sendPct (Z.of_nat (S i) * CHUNK_SIZE) (size file)) (seq k n).

(** What [sendFile] puts on the wire: the metadata, then the chunks. *)
Definition transmission (file : File) : list Message :=
  Text {| meta_name := name file; meta_size := size file |}
  :: map Binary (chunksFrom file 0 (Z.to_nat (totalChunks file))).

(** The specification's reading of completion: once the running total
    has reached the declared size, a further binary message is neither
    stored nor answered with another terminal event. *)
Definition refusesLateChunk (rc : ReceivedChunks) (late : bytes) : Prop :=
  chunks (fst (handleIncomingChunk rc (Binary late))) = chunks rc /\
  downloads (snd (handleIncomingChunk rc (Binary late))) = [].

(** The specification's reading of a later text message: a text message
    that arrives after the metadata leaves the accumulator, the declared name and
    the declared size as they are. *)
Definition keepsFirstMetadata (rc : ReceivedChunks) (meta : Metadata)
    : Prop :=
  fst (handleIncomingChunk rc (Text meta)) = rc.

(** A text frame that [JSON.parse] accepts. *)
Definition parses (m : Message) : bool :=
  match m with
  | Text _ | Null | NoSize _ | NoName _ => true
  | Binary _ | NotJSON _ => false
  end.

(** The [name] and the [size] of the value [JSON.parse] makes of a text
    frame, [undefined] where the value has none. *)
Definition declaredName (m : Message) : option string :=
  match m with
  | Text meta => Some (meta_name meta)
  | NoSize n => n
  | _ => None
  end.

Definition declaredSize (m : Message) : option Z :=
  match m with
  | Text meta => Some (meta_size meta)
  | NoName z => Some z
  | _ => None
  end.

(** The exceptions that left the handler uncaught. *)
Fixpoint uncaught (evs : list Event) : list Exception :=
  match evs with
  | [] => []
  | Uncaught err :: rest => err :: uncaught rest
  | _ :: rest => uncaught rest
  end.

(** The binary frames handed to [dc.send], in order, each with the outcome
    of the call. *)
Fixpoint attempts (evs : list Event) : list (bytes * bool) :=
  match evs with
  | [] => []
  | Write _ (Binary b) ok :: rest => (b, ok) :: attempts rest
  | _ :: rest => attempts rest
  end.

Definition failed (a : bytes * bool) : bool := negb (snd a).

Definition isTimeout (ms : Z) (e : Event) : bool :=
  match e with
  | Timeout m => m =? ms
  | _ => false
  end.

Definition isLog (s : Status) (e : Event) : bool :=
  match e, s with
  | Log FileSent, FileSent => true
  | Log SendFailed, SendFailed => true
  | Log FileSaved, FileSaved => true
  | _, _ => false
  end.

(** The attempts of a sender that stands at chunk [k]: an attempt that
    returns moves on to the next chunk, an attempt that throws is followed
    by attempts for the same chunk, and the attempts end when every chunk
    has been written. *)
Inductive RetriesFrom (file : File) : nat -> list (bytes * bool) -> Prop :=
| retries_done :
    RetriesFrom file (Z.to_nat (totalChunks file)) []
| retries_sent (k : nat) (l : list (bytes * bool)) :
    (k < Z.to_nat (totalChunks file))%nat ->
    RetriesFrom file (S k) l ->
    RetriesFrom file k ((chunkAt file k, true) :: l)
| retries_again (k : nat) (l : list (bytes * bool)) :
    (k < Z.to_nat (totalChunks file))%nat ->
    RetriesFrom file k l ->
    RetriesFrom file k ((chunkAt file k, false) :: l).

(** The length of chunk [k] of a file. *)
Definition chunkLength (file : File) (k : nat) : Z :=
  Z.min CHUNK_SIZE (size file - Z.of_nat k * CHUNK_SIZE).

(** What the receiver reports for a file sent by [sendFile]: the file, if
    it holds at least one byte. *)
Definition reported (file : File) : list (bytes * string) :=
  if 0 <? size file
  then [(content file, downloadName (Some (name file)))]
  else [].

(** Inputs used to exercise the definitions. *)
Definition quiet : Channel :=
  {| bufferedAmount := 0; schedule := []; outcomes := [] |}.

Definition unsteady : Channel :=
  {| bufferedAmount := 0;
     schedule := [100000; 90000; 500];
     outcomes := [Returns; Throws; Returns] |}.

Definition congested : Channel :=
  {| bufferedAmount := 100000; schedule := [100000]; outcomes := [] |}.

(** A file of exactly two chunks. *)
Definition aligned : File :=
  {| name := "aligned.bin";
     content := repeat x00 (Z.to_nat (2 * CHUNK_SIZE)) |}.

(** A channel whose [send] throws once, on the second chunk. *)
Definition faulty : Channel :=
  {| bufferedAmount := 0; schedule := [];
     outcomes := [Returns; Returns; Throws; Returns] |}.

Definition note : File :=
  {| name := "note.txt"; content := [x68; x69; x0a] |}.

(** The 40000-byte file of the specification's scenario. *)
Definition scenario : File :=
  {| name := "scenario.bin"; content := repeat x00 (Z.to_nat 40000) |}.

(* ===================================================================== *)
(** ** Lists of events *)
(* ===================================================================== *)

Lemma length_tl_le {A : Type} (l : list A) :
  (length (tl l) <= length l)%nat.
Proof. destruct l; cbn [tl length]; lia. Qed.

Lemma wire_app (a b : list Event) : wire (a ++ b) = wire a ++ wire b.
Proof.
  induction a as [|e a IH]; [reflexivity|].
  destruct e as [buf m [|]| | | | |]; cbn [wire app]; rewrite IH; reflexivity.
Qed.

Lemma binaryFrames_app (a b : list Message) :
  binaryFrames (a ++ b) = binaryFrames a ++ binaryFrames b.
Proof.
  induction a as [|[meta|data| | | |] a IH]; cbn [binaryFrames app];
    rewrite ?IH; reflexivity.
Qed.

Lemma progress_app (a b : list Event) :
  progress (a ++ b) = progress a ++ progress b.
Proof.
  induction a as [|e a IH]; [reflexivity|].
  destruct e; cbn [progress app]; rewrite IH; reflexivity.
Qed.

Lemma chunkWriteLevels_app (a b : list Event) :
  chunkWriteLevels (a ++ b) = chunkWriteLevels a ++ chunkWriteLevels b.
Proof.
  induction a as [|e a IH]; [reflexivity|].
  destruct e as [buf [meta|data| | | |] ok| | | | |];
    cbn [chunkWriteLevels app]; rewrite IH; reflexivity.
Qed.

Lemma downloads_app (a b : list Event) :
  downloads (a ++ b) = downloads a ++ downloads b.
Proof.
  induction a as [|e a IH]; [reflexivity|].
  destruct e; cbn [downloads app]; rewrite IH; reflexivity.
Qed.

Lemma frames_app (a b : list Event) : frames (a ++ b) = frames a ++ frames b.
Proof. unfold frames. rewrite wire_app. apply binaryFrames_app. Qed.

(* ===================================================================== *)
(** ** Slices *)
(* ===================================================================== *)

Lemma CHUNK_SIZE_eq : CHUNK_SIZE = 16384.
Proof. reflexivity. Qed.

Lemma CHUNK_SIZE_pos : 0 < CHUNK_SIZE.
Proof. rewrite CHUNK_SIZE_eq. lia. Qed.

Lemma size_nonneg (file : File) : 0 <= size file.
Proof. unfold size, byteLength. lia. Qed.

(** A slice of one chunk starting at a non-negative offset is made of the
    next [CHUNK_SIZE] bytes, or of what is left of the file. *)
Lemma slice_chunk (file : File) (off : Z) :
  0 <= off ->
  slice file off (off + CHUNK_SIZE) =
  firstn (Z.to_nat CHUNK_SIZE) (skipn (Z.to_nat off) (content file)).
Proof.
  intros Hoff. pose proof CHUNK_SIZE_pos as HC.
  unfold slice, relativeIndex, size, byteLength.
  set (l := content file).
  destruct (Z.ltb_spec off 0) as [?|_]; [lia|].
  destruct (Z.ltb_spec (off + CHUNK_SIZE) 0) as [?|_]; [lia|].
  destruct (Z_le_gt_dec off (Z.of_nat (length l))) as [Hle|Hgt].
  - rewrite (Z.min_l off) by lia.
    destruct (Z_le_gt_dec (off + CHUNK_SIZE) (Z.of_nat (length l)))
      as [Hin|Hout].
    + rewrite Z.min_l by lia. rewrite Z.max_l by lia.
      f_equal. lia.
    + rewrite Z.min_r by lia. rewrite Z.max_l by lia.
      rewrite !firstn_all2; [reflexivity| |]; rewrite length_skipn; lia.
  - rewrite !Z.min_r by lia. rewrite Z.max_l by lia.
    rewrite Z.sub_diag. cbn [Z.to_nat firstn].
    rewrite skipn_all2 by lia. symmetry. apply firstn_nil.
Qed.

Lemma chunkAt_eq (file : File) (k : nat) :
  chunkAt file k =
  firstn (Z.to_nat CHUNK_SIZE)
         (skipn (k * Z.to_nat CHUNK_SIZE) (content file)).
Proof.
  unfold chunkAt. pose proof CHUNK_SIZE_pos.
  rewrite slice_chunk by lia. do 2 f_equal.
  rewrite Z2Nat.inj_mul by lia. rewrite Nat2Z.id. reflexivity.
Qed.

(** Consecutive chunks concatenate to a window of the content. *)
Lemma concat_chunks (l : bytes) (c k n : nat) :
  concat (map (fun i => firstn c (skipn (i * c) l)) (seq k n)) =
  firstn (n * c) (skipn (k * c) l).
Proof.
  revert k. induction n as [|n IH]; intros k; [reflexivity|].
  cbn [seq map concat]. rewrite IH.
  replace (S n * c)%nat with (c + n * c)%nat by lia.
  rewrite <- (firstn_skipn c (firstn (c + n * c) (skipn (k * c) l))).
  f_equal.
  - rewrite firstn_firstn. f_equal. lia.
  - rewrite skipn_firstn_comm. rewrite skipn_skipn.
    replace (c + n * c - c)%nat with (n * c)%nat by lia.
    replace (c + k * c)%nat with (S k * c)%nat by lia.
    reflexivity.
Qed.

Lemma totalLength_concat (fs : list bytes) :
  totalLength fs = byteLength (concat fs).
Proof.
  induction fs as [|b fs IH]; [reflexivity|].
  cbn [totalLength concat]. rewrite IH. unfold byteLength.
  rewrite length_app. lia.
Qed.

Lemma totalChunks_enough (file : File) :
  (length (content file)
   <= Z.to_nat (totalChunks file) * Z.to_nat CHUNK_SIZE)%nat.
Proof.
  unfold totalChunks, size, byteLength. rewrite CHUNK_SIZE_eq.
  set (s := Z.of_nat (length (content file))).
  assert (Hs : 0 <= s) by (unfold s; lia).
  assert (s <= ((s + 16384 - 1) / 16384) * 16384)
    by (Z.div_mod_to_equations; lia).
  assert (0 <= (s + 16384 - 1) / 16384)
    by (Z.div_mod_to_equations; lia).
  apply Nat2Z.inj_le. rewrite Nat2Z.inj_mul, !Z2Nat.id by lia.
  fold s. lia.
Qed.

Lemma chunksFrom_concat (file : File) :
  concat (chunksFrom file 0 (Z.to_nat (totalChunks file))) = content file.
Proof.
  unfold chunksFrom.
  rewrite (map_ext _ _ (chunkAt_eq file)).
  rewrite concat_chunks. rewrite Nat.mul_0_l. cbn [skipn].
  apply firstn_all2. apply totalChunks_enough.
Qed.

(** The loop test in terms of the number of chunks already sent. *)
Lemma more_chunks (file : File) (k : nat) :
  (Z.of_nat k * CHUNK_SIZE <? size file) = true <->
  (k < Z.to_nat (totalChunks file))%nat.
Proof.
  pose proof (size_nonneg file) as Hs.
  unfold totalChunks. rewrite CHUNK_SIZE_eq. rewrite Z.ltb_lt.
  assert (0 <= (size file + 16384 - 1) / 16384)
    by (Z.div_mod_to_equations; lia).
  rewrite Nat2Z.inj_lt, Z2Nat.id by lia.
  split; intros Hk; Z.div_mod_to_equations; lia.
Qed.

(* ===================================================================== *)
(** ** The sender's primitives *)
(* ===================================================================== *)

Lemma suspend_events (r : Run) : events (suspend r) = events r.
Proof. unfold suspend. destruct (schedule (dc r)); reflexivity. Qed.

Lemma suspend_outcomes (r : Run) :
  outcomes (dc (suspend r)) = outcomes (dc r).
Proof. unfold suspend. destruct (schedule (dc r)); reflexivity. Qed.


Lemma pollBuffer_spec (sched : list Z) (cur : Z) (out : list Outcome)
    (evs : list Event) :
  let r := pollBuffer sched cur out evs in
  events r = evs ++ repeat (Timeout 50) (fullPrefix cur sched) /\
  outcomes (dc r) = out /\
  bufferedAmount (dc r) <= 5 * CHUNK_SIZE.
Proof.
  revert cur evs. induction sched as [|b rest IH]; intros cur evs;
    cbn [pollBuffer fullPrefix];
    destruct (Z.gtb_spec cur (5 * CHUNK_SIZE)) as [Hfull|Hok];
    cbn [dc events outcomes bufferedAmount repeat].
  - repeat split. rewrite CHUNK_SIZE_eq. lia.
  - rewrite app_nil_r. repeat split. exact Hok.
  - destruct (IH b (evs ++ [Timeout 50])) as (He & Ho & Hb).
    repeat split; try assumption.
    rewrite He, <- app_assoc. reflexivity.
  - rewrite app_nil_r. repeat split. exact Hok.
Qed.

Lemma waitForBuffer_spec (r : Run) :
  events (waitForBuffer r) =
    events r ++
    repeat (Timeout 50)
           (fullPrefix (bufferedAmount (dc r)) (schedule (dc r))) /\
  outcomes (dc (waitForBuffer r)) = outcomes (dc r) /\
  bufferedAmount (dc (waitForBuffer r)) <= 5 * CHUNK_SIZE.
Proof. apply pollBuffer_spec. Qed.

Lemma wire_timeouts (n : nat) (ms : Z) : wire (repeat (Timeout ms) n) = [].
Proof. induction n; [reflexivity| exact IHn]. Qed.

Lemma progress_timeouts (n : nat) (ms : Z) :
  progress (repeat (Timeout ms) n) = [].
Proof. induction n; [reflexivity| exact IHn]. Qed.

Lemma chunkWriteLevels_timeouts (n : nat) (ms : Z) :
  chunkWriteLevels (repeat (Timeout ms) n) = [].
Proof. induction n; [reflexivity| exact IHn]. Qed.

(** What a call of [dc.send] does, by cases on the next outcome. *)
Lemma dc_send_cases (m : Message) (r : Run) :
  (fst (dc_send m r) = true /\
   hd Returns (outcomes (dc r)) = Returns /\
   outcomes (dc (snd (dc_send m r))) = tl (outcomes (dc r)) /\
   events (snd (dc_send m r)) =
     events r ++ [Write (bufferedAmount (dc r)) m true]) \/
  (fst (dc_send m r) = false /\
   hd Returns (outcomes (dc r)) = Throws /\
   outcomes (dc (snd (dc_send m r))) = tl (outcomes (dc r)) /\
   S (length (outcomes (dc (snd (dc_send m r))))) =
     length (outcomes (dc r)) /\
   events (snd (dc_send m r)) =
     events r ++ [Write (bufferedAmount (dc r)) m false]).
Proof.
  unfold dc_send. destruct (outcomes (dc r)) as [|[|] rest] eqn:Ho;
    cbn [fst snd dc events outcomes hd tl length].
  - left. rewrite Ho. repeat split.
  - left. repeat split.
  - right. repeat split.
Qed.

(* ===================================================================== *)
(** ** The send loop of [script.js] *)
(* ===================================================================== *)

(** From the offset of chunk [k] on, with enough fuel, the loop ends; what
    it adds to the trace carries exactly the remaining chunks, each handed
    to [dc.send] at a buffer level within the threshold. *)
Lemma sendLoop_spec (file : File) (fuel : nat) :
  forall (k : nat) (r : Run),
    (k <= Z.to_nat (totalChunks file))%nat ->
    (Z.to_nat (totalChunks file) - k + length (outcomes (dc r)) < fuel)%nat ->
    exists (r' : Run) (ext : list Event),
      sendLoop fuel file (Z.of_nat k * CHUNK_SIZE) r = Some r' /\
      events r' = events r ++ ext /\
      wire ext =
        map Binary (chunksFrom file k (Z.to_nat (totalChunks file) - k)) /\
      progress ext =
        offsetPercentages file k (Z.to_nat (totalChunks file) - k) /\
      Forall (fun b => b <= 5 * CHUNK_SIZE) (chunkWriteLevels ext).
Proof.
  induction fuel as [|fuel IH]; intros k r Hk Hfuel; [lia|].
  cbn [sendLoop].
  destruct (Z.of_nat k * CHUNK_SIZE <? size file) eqn:Hmore.
  - apply more_chunks in Hmore.
    set (r1 := waitForBuffer (suspend r)).
    destruct (waitForBuffer_spec (suspend r)) as (He1 & Ho1 & Hb1).
    fold r1 in He1, Ho1, Hb1.
    rewrite suspend_events in He1. rewrite suspend_outcomes in Ho1.
    set (chunk := slice file (Z.of_nat k * CHUNK_SIZE)
                        (Z.of_nat k * CHUNK_SIZE + CHUNK_SIZE)).
    destruct (dc_send_cases (Binary chunk) r1)
      as [(Hok & _ & Ho2 & He2)|(Hok & _ & _ & Ho2 & He2)];
      destruct (dc_send (Binary chunk) r1) as [ok r2];
      cbn [fst snd] in *; subst ok.
    + replace (Z.of_nat k * CHUNK_SIZE + CHUNK_SIZE)
        with (Z.of_nat (S k) * CHUNK_SIZE) by lia.
      destruct (IH (S k)
                  (emit (Progress (sendPct (Z.of_nat (S k) * CHUNK_SIZE)
                                           (size file))) r2))
        as (r' & ext & Hrun & Hev & Hfr & Hpr & Hlv).
      * lia.
      * cbn [emit dc]. rewrite Ho2, Ho1.
        pose proof (length_tl_le (outcomes (dc r))). lia.
      * exists r'. eexists. split; [exact Hrun|]. split.
        { rewrite Hev. cbn [emit events]. rewrite He2, He1.
          rewrite <- !app_assoc. reflexivity. }
        split.
        { rewrite !wire_app, wire_timeouts, Hfr.
          replace (Z.to_nat (totalChunks file) - k)%nat
            with (S (Z.to_nat (totalChunks file) - S k)) by lia.
          reflexivity. }
        split.
        { rewrite !progress_app, progress_timeouts, Hpr.
          replace (Z.to_nat (totalChunks file) - k)%nat
            with (S (Z.to_nat (totalChunks file) - S k)) by lia.
          reflexivity. }
        { rewrite !chunkWriteLevels_app, chunkWriteLevels_timeouts.
          cbn [chunkWriteLevels app]. constructor; assumption. }
    + destruct (IH k (suspend (emit (Timeout 200) (emit (Log SendFailed) r2))))
        as (r' & ext & Hrun & Hev & Hfr & Hpr & Hlv).
      * exact Hk.
      * rewrite suspend_outcomes. cbn [emit dc]. rewrite Ho1 in Ho2. lia.
      * exists r'. eexists. split; [exact Hrun|]. split.
        { rewrite Hev, suspend_events. cbn [emit events].
          rewrite He2, He1. rewrite <- !app_assoc. reflexivity. }
        split.
        { rewrite !wire_app, wire_timeouts, Hfr. reflexivity. }
        split.
        { rewrite !progress_app, progress_timeouts, Hpr. reflexivity. }
        { rewrite !chunkWriteLevels_app, chunkWriteLevels_timeouts.
          cbn [chunkWriteLevels app]. constructor; assumption. }
  - assert (Hdone : ~ (k < Z.to_nat (totalChunks file))%nat).
    { intros Hlt. apply more_chunks in Hlt. congruence. }
    exists r, []. rewrite app_nil_r.
    replace (Z.to_nat (totalChunks file) - k)%nat with 0%nat by lia.
    repeat split. constructor.
Qed.

(** [totalChunks] is the ceiling of [size / CHUNK_SIZE]. *)
Lemma totalChunks_ceil (file : File) :
  size file <= totalChunks file * CHUNK_SIZE < size file + CHUNK_SIZE.
Proof.
  unfold totalChunks. rewrite CHUNK_SIZE_eq.
  pose proof (size_nonneg file). Z.div_mod_to_equations. lia.
Qed.

Lemma totalChunks_nonneg (file : File) : 0 <= totalChunks file.
Proof.
  pose proof (totalChunks_ceil file) as H. pose proof (size_nonneg file).
  rewrite CHUNK_SIZE_eq in H. lia.
Qed.

Lemma carriesFile_intro (file : File) (evs : list Event) :
  frames evs = chunksFrom file 0 (Z.to_nat (totalChunks file)) ->
  carriesFile file evs.
Proof.
  intros Hfr. unfold carriesFile. rewrite Hfr.
  split; [reflexivity|]. split; [|split].
  - unfold chunksFrom. rewrite length_map, length_seq.
    apply Z2Nat.id, totalChunks_nonneg.
  - rewrite totalLength_concat, chunksFrom_concat. reflexivity.
  - apply chunksFrom_concat.
Qed.

Lemma binaryFrames_Binary (l : list bytes) : binaryFrames (map Binary l) = l.
Proof. induction l as [|b l IH]; cbn [map binaryFrames]; congruence. Qed.

Lemma carriesFile_wire (file : File) (evs : list Event) :
  wire evs = transmission file -> carriesFile file evs.
Proof.
  intros Hw. apply carriesFile_intro. unfold frames. rewrite Hw.
  unfold transmission. cbn [binaryFrames]. apply binaryFrames_Binary.
Qed.

Lemma sendFile_wire (file : File) (c : Channel) (fuel : nat) :
  (enoughFuel file c <= fuel)%nat ->
  hd Returns (outcomes c) = Returns ->
  exists evs : list Event,
    sendFile fuel (Some file) (Some c) = Some (evs, Resolved) /\
    wire evs = transmission file /\
    progress evs =
      offsetPercentages file 0 (Z.to_nat (totalChunks file)) /\
    Forall (fun b => b <= 5 * CHUNK_SIZE) (chunkWriteLevels evs).
Proof.
  intros Hfuel Hmeta. unfold enoughFuel in Hfuel. unfold sendFile.
  set (r0 := emit (Log (Sending (name file) (size file)))
                  {| dc := c; events := [] |}).
  set (meta := Text {| meta_name := name file; meta_size := size file |}).
  destruct (dc_send_cases meta r0)
    as [(Hok & _ & Ho & He)|(_ & Hthrow & _)];
    [|cbn [r0 emit dc] in Hthrow; congruence].
  destruct (dc_send meta r0) as [ok r1]; cbn [fst snd] in *; subst ok.
  destruct (sendLoop_spec file fuel 0 r1)
    as (r' & ext & Hrun & Hev & Hfr & Hpr & Hlv).
  - lia.
  - rewrite Ho. cbn [r0 emit dc].
    pose proof (length_tl_le (outcomes c)). lia.
  - cbn [Z.of_nat Z.mul] in Hrun. rewrite Hrun.
    eexists. split; [reflexivity|].
    cbn [emit events]. rewrite Hev, He.
    split.
    + rewrite !wire_app, Hfr, Nat.sub_0_r.
      change (wire (events r0)) with (@nil Message).
      change (wire [Write (bufferedAmount (dc r0)) meta true]) with [meta].
      change (wire [Log FileSent]) with (@nil Message).
      cbn [app]. rewrite app_nil_r. reflexivity.
    + split.
      * rewrite !progress_app, Hpr, Nat.sub_0_r.
        change (progress (events r0)) with (@nil integral).
        change (progress [Write (bufferedAmount (dc r0)) meta true])
          with (@nil integral).
        change (progress [Log FileSent]) with (@nil integral).
        cbn [app]. apply app_nil_r.
      * rewrite !chunkWriteLevels_app.
        change (chunkWriteLevels (events r0)) with (@nil Z).
        change (chunkWriteLevels [Write (bufferedAmount (dc r0)) meta true])
          with (@nil Z).
        change (chunkWriteLevels [Log FileSent]) with (@nil Z).
        cbn [app]. rewrite app_nil_r. exact Hlv.
Qed.

(* ===================================================================== *)
(** ** The send loop of the second copy *)
(* ===================================================================== *)

Lemma neverThrows_tl (c : list Outcome) :
  Forall (fun o => o = Returns) c -> Forall (fun o => o = Returns) (tl c).
Proof. intros H. destruct H; [constructor|assumption]. Qed.

Lemma neverThrows_hd (c : list Outcome) :
  Forall (fun o => o = Returns) c -> hd Returns c = Returns.
Proof. intros H. destruct H; [reflexivity|assumption]. Qed.

Lemma basic_sendLoop_spec (file : File) (fuel : nat) :
  forall (k : nat) (r : Run),
    (k <= Z.to_nat (totalChunks file))%nat ->
    (Z.to_nat (totalChunks file) - k < fuel)%nat ->
    Forall (fun o => o = Returns) (outcomes (dc r)) ->
    exists (r' : Run) (ext : list Event),
      Basic.sendLoop fuel file (Z.of_nat k * CHUNK_SIZE) r
        = Some (r', Resolved) /\
      events r' = events r ++ ext /\
      wire ext =
        map Binary (chunksFrom file k (Z.to_nat (totalChunks file) - k)).
Proof.
  induction fuel as [|fuel IH]; intros k r Hk Hfuel Hret; [lia|].
  cbn [Basic.sendLoop].
  destruct (Z.of_nat k * CHUNK_SIZE <? size file) eqn:Hmore.
  - apply more_chunks in Hmore.
    set (chunk := slice file (Z.of_nat k * CHUNK_SIZE)
                        (Z.of_nat k * CHUNK_SIZE + CHUNK_SIZE)).
    destruct (dc_send_cases (Binary chunk) (suspend r))
      as [(Hok & _ & Ho & He)|(_ & Hthrow & _)].
    + destruct (dc_send (Binary chunk) (suspend r)) as [ok r2];
        cbn [fst snd] in *; subst ok.
      rewrite suspend_outcomes in Ho. rewrite suspend_events in He.
      replace (Z.of_nat k * CHUNK_SIZE + CHUNK_SIZE)
        with (Z.of_nat (S k) * CHUNK_SIZE) by lia.
      destruct (IH (S k)
                  (emit (Progress (sendPct (Z.of_nat (S k) * CHUNK_SIZE)
                                           (size file))) r2))
        as (r' & ext & Hrun & Hev & Hfr).
      * lia.
      * lia.
      * cbn [emit dc]. rewrite Ho. apply neverThrows_tl, Hret.
      * exists r'. eexists. split; [exact Hrun|]. split.
        { rewrite Hev. cbn [emit events]. rewrite He.
          rewrite <- !app_assoc. reflexivity. }
        { rewrite !wire_app, Hfr.
          replace (Z.to_nat (totalChunks file) - k)%nat
            with (S (Z.to_nat (totalChunks file) - S k)) by lia.
          reflexivity. }
    + rewrite suspend_outcomes in Hthrow.
      rewrite (neverThrows_hd _ Hret) in Hthrow. discriminate.
  - assert (Hdone : ~ (k < Z.to_nat (totalChunks file))%nat).
    { intros Hlt. apply more_chunks in Hlt. congruence. }
    exists r, []. rewrite app_nil_r.
    replace (Z.to_nat (totalChunks file) - k)%nat with 0%nat by lia.
    repeat split.
Qed.

Lemma basic_sendFile_wire (file : File) (c : Channel) (fuel : nat) :
  (enoughFuel file c <= fuel)%nat ->
  neverThrows c ->
  exists evs : list Event,
    Basic.sendFile fuel (Some file) (Some c) = Some (evs, Resolved) /\
    wire evs = transmission file.
Proof.
  intros Hfuel Hret. unfold enoughFuel in Hfuel. unfold Basic.sendFile.
  set (r0 := emit (Log (Sending (name file) (size file)))
                  {| dc := c; events := [] |}).
  set (meta := Text {| meta_name := name file; meta_size := size file |}).
  destruct (dc_send_cases meta r0)
    as [(Hok & _ & Ho & He)|(_ & Hthrow & _)].
  - destruct (dc_send meta r0) as [ok r1]; cbn [fst snd] in *; subst ok.
    destruct (basic_sendLoop_spec file fuel 0 r1)
      as (r' & ext & Hrun & Hev & Hfr).
    + lia.
    + lia.
    + rewrite Ho. cbn [r0 emit dc]. apply neverThrows_tl, Hret.
    + cbn [Z.of_nat Z.mul] in Hrun. rewrite Hrun.
      eexists. split; [reflexivity|].
      cbn [emit events]. rewrite Hev, He.
      rewrite !wire_app, Hfr, Nat.sub_0_r.
      change (wire (events r0)) with (@nil Message).
      change (wire [Write (bufferedAmount (dc r0)) meta true]) with [meta].
      change (wire [Log FileSent]) with (@nil Message).
      cbn [app]. rewrite app_nil_r. reflexivity.
  - cbn [r0 emit dc] in Hthrow.
    rewrite (neverThrows_hd _ Hret) in Hthrow. discriminate.
Qed.

(* ===================================================================== *)
(** ** Send path: frames, flow control, progress *)
(* ===================================================================== *)

(** C1, as the code has it.  A file sent by [sendFile] of [script.js] over
    an open channel goes out as [ceil(size / CHUNK_SIZE)] binary frames,
    [CHUNK_SIZE] being 16384; the frames are the sequential slices of the
    file, their lengths add up to the size and their concatenation is the
    content.  This holds whatever the buffer levels are and however often a
    chunk write throws before it succeeds, once the metadata frame has been
    written.  The second copy has no retry: it sends the file in this way
    on channels whose [send] does not throw. *)
Theorem sendFile_frames_cover_file
    (file : File) (c c' : Channel) (fuel : nat) :
  (enoughFuel file c <= fuel)%nat ->
  (enoughFuel file c' <= fuel)%nat ->
  hd Returns (outcomes c) = Returns ->
  neverThrows c' ->
  CHUNK_SIZE = 16384 /\
  size file <= totalChunks file * CHUNK_SIZE < size file + CHUNK_SIZE /\
  (exists evs : list Event,
      sendFile fuel (Some file) (Some c) = Some (evs, Resolved) /\
      carriesFile file evs) /\
  (exists evs : list Event,
      Basic.sendFile fuel (Some file) (Some c') = Some (evs, Resolved) /\
      carriesFile file evs).
Proof.
  intros Hfuel Hfuel' Hmeta Hret.
  split; [reflexivity|]. split; [apply totalChunks_ceil|]. split.
  - destruct (sendFile_wire file c fuel Hfuel Hmeta)
      as (evs & Hrun & Hwire & _ & _).
    exists evs. split; [exact Hrun|].
    apply (carriesFile_wire _ _ Hwire).
  - destruct (basic_sendFile_wire file c' fuel Hfuel' Hret)
      as (evs & Hrun & Hwire).
    exists evs. split; [exact Hrun|].
    apply (carriesFile_wire _ _ Hwire).
Qed.

Lemma sendFile_frames_cover_file_witness :
  (enoughFuel note unsteady <= 6)%nat /\
  (enoughFuel note quiet <= 6)%nat /\
  hd Returns (outcomes unsteady) = Returns /\
  neverThrows quiet /\
  (exists evs : list Event,
      sendFile 6 (Some note) (Some unsteady) = Some (evs, Resolved) /\
      carriesFile note evs) /\
  (exists evs : list Event,
      Basic.sendFile 6 (Some note) (Some quiet) = Some (evs, Resolved) /\
      carriesFile note evs).
Proof.
  assert (H1 : (enoughFuel note unsteady <= 6)%nat) by (vm_compute; lia).
  assert (H2 : (enoughFuel note quiet <= 6)%nat) by (vm_compute; lia).
  assert (H3 : hd Returns (outcomes unsteady) = Returns) by reflexivity.
  assert (H4 : neverThrows quiet) by constructor.
  repeat (split; [assumption|]).
  apply (sendFile_frames_cover_file note unsteady quiet 6 H1 H2 H3 H4).
Defined.

(** C1 fails on the second copy: on an open channel whose [send] throws
    once, at the second chunk, its [sendFile] rejects after one of the three
    frames of the 40000-byte file, so that 16384 bytes went out in one
    frame; [sendFile] of [script.js] writes all three on that channel. *)
Lemma basic_sendFile_stops_short_of_the_file :
  totalChunks scenario = 3 /\
  size scenario = 40000 /\
  (exists evs : list Event,
      Basic.sendFile 8 (Some scenario) (Some faulty) = Some (evs, Rejected) /\
      map byteLength (frames evs) = [16384] /\
      ~ carriesFile scenario evs) /\
  option_map (fun out => (map byteLength (frames (fst out)), snd out))
             (sendFile 8 (Some scenario) (Some faulty))
    = Some ([16384; 16384; 7232], Resolved).
Proof.
  assert (Hchunks : totalChunks scenario = 3) by (vm_compute; reflexivity).
  split; [exact Hchunks|]. split; [vm_compute; reflexivity|].
  split; [|vm_compute; reflexivity].
  assert (Hout : option_map
                   (fun out => (map byteLength (frames (fst out)), snd out))
                   (Basic.sendFile 8 (Some scenario) (Some faulty))
                 = Some ([16384], Rejected)) by (vm_compute; reflexivity).
  destruct (Basic.sendFile 8 (Some scenario) (Some faulty))
    as [[evs done]|]; [|discriminate].
  cbn [option_map fst snd] in Hout. injection Hout as Hframes ->.
  exists evs. split; [reflexivity|]. split; [exact Hframes|].
  intros (_ & Hlen & _).
  rewrite <- (length_map byteLength (frames evs)), Hframes, Hchunks in Hlen.
  discriminate.
Qed.




(** The percentage is computed in binary64 from the offset, which moves
    on by a whole [CHUNK_SIZE] after every write. *)
Example sendPct_rounds_in_binary64 :
  sendPct (29 * CHUNK_SIZE) (100 * CHUNK_SIZE) = Int 28 /\
  (29 * CHUNK_SIZE * 100) / (100 * CHUNK_SIZE) = 29.
Proof. split; vm_compute; reflexivity. Qed.

(** C3 on the code.  The percentage shown after a chunk is computed from
    the offset, which has moved on by a whole [CHUNK_SIZE], and not from
    the bytes sent: the percentages of a transfer are those of the offsets
    [CHUNK_SIZE], [2 * CHUNK_SIZE], ..., up to
    [totalChunks * CHUNK_SIZE], while the frames add up to the size.  At
    the 40000-byte file of the specification's scenario three frames of
    16384, 16384 and 7232 bytes go out and the percentages shown are 40, 81
    and 122, in [script.js] and in the second copy alike. *)
Theorem sendFile_progress_overshoots (file : File) :
  (exists evs : list Event,
      sendFile (enoughFuel file quiet) (Some file) (Some quiet)
        = Some (evs, Resolved) /\
      progress evs
        = offsetPercentages file 0 (Z.to_nat (totalChunks file)) /\
      totalLength (frames evs) = size file) /\
  option_map (fun out => (map byteLength (frames (fst out)),
                          progress (fst out), snd out))
             (sendFile 4 (Some scenario) (Some quiet))
    = Some ([16384; 16384; 7232], [Int 40; Int 81; Int 122], Resolved) /\
  option_map (fun out => (map byteLength (frames (fst out)),
                          progress (fst out), snd out))
             (Basic.sendFile 4 (Some scenario) (Some quiet))
    = Some ([16384; 16384; 7232], [Int 40; Int 81; Int 122], Resolved) /\
  sendPct 40000 40000 = Int 100.
Proof.
  split; [|repeat split; vm_compute; reflexivity].
  destruct (sendFile_wire file quiet (enoughFuel file quiet)
              (Nat.le_refl _) eq_refl)
    as (evs & Hrun & Hwire & Hprogress & _).
  exists evs. split; [exact Hrun|]. split; [exact Hprogress|].
  apply (carriesFile_wire _ _ Hwire).
Qed.

(* ===================================================================== *)
(** ** The receive handler *)
(* ===================================================================== *)

Lemma byteLength_nonneg (b : bytes) : 0 <= byteLength b.
Proof. unfold byteLength. lia. Qed.

Lemma totalLength_nonneg (l : list bytes) : 0 <= totalLength l.
Proof.
  induction l as [|b l IH]; cbn [totalLength]; [lia|].
  pose proof (byteLength_nonneg b). lia.
Qed.

Lemma totalLength_app (a b : list bytes) :
  totalLength (a ++ b) = totalLength a + totalLength b.
Proof. induction a as [|x a IH]; cbn [totalLength app]; lia. Qed.

Lemma reduceByteLength_from (l : list bytes) (a : Z) :
  fold_left (fun a b => a + byteLength b) l a = a + totalLength l.
Proof.
  revert a. induction l as [|b l IH]; intros a; cbn [fold_left totalLength].
  - lia.
  - rewrite IH. lia.
Qed.

Lemma reduceByteLength_total (l : list bytes) :
  reduceByteLength l = totalLength l.
Proof. unfold reduceByteLength. rewrite reduceByteLength_from. lia. Qed.


Lemma receive_app (a b : list Message) (rc : ReceivedChunks) :
  receive rc (a ++ b) =
  (fst (receive (fst (receive rc a)) b),
   snd (receive rc a) ++ snd (receive (fst (receive rc a)) b)).
Proof.
  revert rc. induction a as [|m a IH]; intros rc; cbn [receive app fst snd].
  - destruct (receive rc b); reflexivity.
  - destruct (handleIncomingChunk rc m) as [rc1 evs1]. rewrite IH.
    destruct (receive rc1 a) as [rc2 evs2]. cbn [fst snd].
    rewrite app_assoc. reflexivity.
Qed.

(** A metadata message makes the handler forget what it held. *)
Lemma handleIncomingChunk_text (rc rc' : ReceivedChunks) (meta : Metadata) :
  handleIncomingChunk rc (Text meta) = handleIncomingChunk rc' (Text meta).
Proof. reflexivity. Qed.

Lemma receive_text (rc rc' : ReceivedChunks) (meta : Metadata)
    (rest : list Message) :
  receive rc (Text meta :: rest) = receive rc' (Text meta :: rest).
Proof. reflexivity. Qed.




(** The handler of the second copy stores the same chunks and reports the
    same percentages and the same downloads. *)
Lemma basic_handleIncomingChunk (rc : ReceivedChunks) (m : Message) :
  fst (Basic.handleIncomingChunk rc m) = fst (handleIncomingChunk rc m) /\
  progress (snd (Basic.handleIncomingChunk rc m))
    = progress (snd (handleIncomingChunk rc m)) /\
  downloads (snd (Basic.handleIncomingChunk rc m))
    = downloads (snd (handleIncomingChunk rc m)).
Proof.
  destruct m as [meta|data|text| |n|z];
    [repeat split| |repeat split..].
  unfold Basic.handleIncomingChunk, handleIncomingChunk,
    Basic.saveReceivedFile.
  cbn [chunks expectedName expectedSize app].
  destruct (geb _ _); repeat split.
Qed.

Lemma basic_receive (msgs : list Message) :
  forall rc : ReceivedChunks,
    fst (Basic.receive rc msgs) = fst (receive rc msgs) /\
    progress (snd (Basic.receive rc msgs))
      = progress (snd (receive rc msgs)) /\
    downloads (snd (Basic.receive rc msgs))
      = downloads (snd (receive rc msgs)).
Proof.
  induction msgs as [|m msgs IH]; intros rc; [repeat split|].
  cbn [Basic.receive receive].
  destruct (basic_handleIncomingChunk rc m) as (Hrc & Hp & Hd).
  destruct (Basic.handleIncomingChunk rc m) as [rc1 evs1].
  destruct (handleIncomingChunk rc m) as [rc2 evs2].
  cbn [fst snd] in Hrc, Hp, Hd. subst rc2.
  destruct (IH rc1) as (Hrc' & Hp' & Hd').
  destruct (Basic.receive rc1 msgs) as [rc3 evs3].
  destruct (receive rc1 msgs) as [rc4 evs4].
  cbn [fst snd] in *. rewrite !progress_app, !downloads_app.
  repeat split; congruence.
Qed.


(** When a binary message is answered with a terminal event, and what the
    event carries. *)
Lemma handleIncomingChunk_downloads (rc : ReceivedChunks) (data : bytes) :
  downloads (snd (handleIncomingChunk rc (Binary data))) =
  if geb (totalLength (chunks rc) + byteLength data) (expectedSize rc)
  then [(concat (chunks rc) ++ data, downloadName (expectedName rc))]
  else [].
Proof.
  unfold handleIncomingChunk. cbn [chunks expectedSize expectedName].
  rewrite reduceByteLength_total, totalLength_app. cbn [totalLength].
  rewrite Z.add_0_r.
  destruct (geb _ _); cbn [snd downloads]; [|reflexivity].
  rewrite concat_app. cbn [concat]. rewrite app_nil_r. reflexivity.
Qed.

Lemma handleIncomingChunk_binary_state (rc : ReceivedChunks) (data : bytes) :
  fst (handleIncomingChunk rc (Binary data)) =
  {| chunks := chunks rc ++ [data];
     expectedName := expectedName rc;
     expectedSize := expectedSize rc |}.
Proof.
  unfold handleIncomingChunk. cbn [chunks expectedSize expectedName].
  destruct (geb _ _); reflexivity.
Qed.

(** C4, as the code has it.  A binary message is answered with a terminal
    event exactly when the running total, this message included, has
    reached the declared size; the event carries the concatenation of all
    the chunks held and the declared name (['download.bin'] when the name
    is empty or undefined).  The accumulator is kept: a binary message that
    arrives later is stored as well and answered with one more terminal
    event, which carries the longer byte sequence.  The handler of the
    second copy emits the same terminal events. *)
Theorem completion_does_not_close_the_accumulator
    (rc : ReceivedChunks) (data late : bytes) (declared : Z) :
  expectedSize rc = Some declared ->
  declared <= totalLength (chunks rc) + byteLength data ->
  (forall (rc0 : ReceivedChunks) (d : bytes),
      downloads (snd (handleIncomingChunk rc0 (Binary d))) =
      if geb (totalLength (chunks rc0) + byteLength d) (expectedSize rc0)
      then [(concat (chunks rc0) ++ d, downloadName (expectedName rc0))]
      else []) /\
  downloads (snd (handleIncomingChunk rc (Binary data)))
    = [(concat (chunks rc) ++ data, downloadName (expectedName rc))] /\
  chunks (fst (handleIncomingChunk rc (Binary data))) = chunks rc ++ [data] /\
  downloads (snd (handleIncomingChunk
                    (fst (handleIncomingChunk rc (Binary data)))
                    (Binary late)))
    = [(concat (chunks rc) ++ data ++ late,
        downloadName (expectedName rc))] /\
  chunks (fst (handleIncomingChunk
                 (fst (handleIncomingChunk rc (Binary data)))
                 (Binary late)))
    = chunks rc ++ [data; late] /\
  (forall (rc0 : ReceivedChunks) (m : Message),
      fst (Basic.handleIncomingChunk rc0 m)
        = fst (handleIncomingChunk rc0 m) /\
      downloads (snd (Basic.handleIncomingChunk rc0 m))
        = downloads (snd (handleIncomingChunk rc0 m))).
Proof.
  intros Hsize Hdone.
  split; [exact handleIncomingChunk_downloads|].
  rewrite !handleIncomingChunk_downloads, !handleIncomingChunk_binary_state.
  cbn [chunks expectedName expectedSize]. rewrite Hsize. cbn [geb].
  rewrite totalLength_app. cbn [totalLength]. rewrite Z.add_0_r.
  pose proof (byteLength_nonneg late) as Hlate.
  destruct (Z.leb_spec declared (totalLength (chunks rc) + byteLength data))
    as [_|?]; [|lia].
  destruct (Z.leb_spec declared
              (totalLength (chunks rc) + byteLength data + byteLength late))
    as [_|?]; [|lia].
  rewrite concat_app. cbn [concat]. rewrite app_nil_r, <- !app_assoc.
  cbn [app]. repeat split.
  - apply basic_handleIncomingChunk.
  - apply basic_handleIncomingChunk.
Qed.

Lemma completion_does_not_close_the_accumulator_witness :
  expectedSize {| chunks := []; expectedName := Some "a";
                  expectedSize := Some 1 |} = Some 1 /\
  1 <= totalLength [] + byteLength [x01] /\
  downloads (snd (handleIncomingChunk
                    {| chunks := []; expectedName := Some "a";
                       expectedSize := Some 1 |} (Binary [x01])))
    = [([x01], "a")] /\
  downloads (snd (handleIncomingChunk
                    (fst (handleIncomingChunk
                            {| chunks := []; expectedName := Some "a";
                               expectedSize := Some 1 |} (Binary [x01])))
                    (Binary [x02])))
    = [([x01; x02], "a")].
Proof.
  assert (H1 : expectedSize {| chunks := []; expectedName := Some "a";
                               expectedSize := Some 1 |} = Some 1)
    by reflexivity.
  assert (H2 : 1 <= totalLength [] + byteLength [x01])
    by (vm_compute; discriminate).
  repeat (split; [assumption|]).
  destruct (completion_does_not_close_the_accumulator
              {| chunks := []; expectedName := Some "a";
                 expectedSize := Some 1 |} [x01] [x02] 1 H1 H2)
    as (_ & Hfirst & _ & Hlate & _).
  split; [exact Hfirst | exact Hlate].
Defined.

(** C4 fails as worded: after the one-byte transfer "a" has completed, a
    second binary message is stored and a second terminal event is
    emitted. *)
Lemma late_chunk_is_stored_and_reported :
  receive noChunks [Text {| meta_name := "a"; meta_size := 1 |};
                    Binary [x01]]
    = ({| chunks := [[x01]]; expectedName := Some "a";
          expectedSize := Some 1 |},
       [Progress (Int 0); Log (Receiving "a" 1);
        Progress (Int 100); Download [x01] "a"; Log FileSaved]) /\
  handleIncomingChunk
    {| chunks := [[x01]]; expectedName := Some "a"; expectedSize := Some 1 |}
    (Binary [x02])
    = ({| chunks := [[x01]; [x02]]; expectedName := Some "a";
          expectedSize := Some 1 |},
       [Progress (Int 200); Download [x01; x02] "a"; Log FileSaved]) /\
  ~ refusesLateChunk
      {| chunks := [[x01]]; expectedName := Some "a";
         expectedSize := Some 1 |} [x02].
Proof.
  split; [vm_compute; reflexivity|]. split; [vm_compute; reflexivity|].
  intros [Hchunks _]. vm_compute in Hchunks. discriminate.
Qed.

(** A text frame that parses makes the handler forget what it held. *)
Lemma handleIncomingChunk_parsed (rc rc' : ReceivedChunks) (m : Message) :
  parses m = true ->
  handleIncomingChunk rc m = handleIncomingChunk rc' m.
Proof. destruct m; intros Hm; try discriminate; reflexivity. Qed.

Lemma receive_parsed (rc rc' : ReceivedChunks) (m : Message)
    (rest : list Message) :
  parses m = true ->
  receive rc (m :: rest) = receive rc' (m :: rest).
Proof.
  intros Hm. cbn [receive].
  rewrite (handleIncomingChunk_parsed rc rc' m Hm). reflexivity.
Qed.

(** A text frame that is not JSON leaves no trace but the exception. *)
Lemma receive_NotJSON (rc : ReceivedChunks) (text : string)
    (rest : list Message) :
  receive rc (NotJSON text :: rest)
  = (fst (receive rc rest), Uncaught SyntaxError :: snd (receive rc rest)).
Proof.
  cbn [receive handleIncomingChunk].
  destruct (receive rc rest); reflexivity.
Qed.

(** C8, as the code has it.  Every text message on the data channel is
    handed to [JSON.parse], whatever came before.  One that parses is taken
    as metadata: it replaces the accumulator by an empty one tagged with
    the name and the size of the parsed value ([undefined] where the value
    has none), so the messages before it have no bearing on the accumulator
    afterwards; the handler throws afterwards only when the value is null
    or has no size.  A text that is not JSON makes [JSON.parse] throw
    before anything is assigned: the accumulator, the name and the size are
    left as they were, the handler logs nothing, and the rest of the stream
    is handled as if the message had not arrived.  The second copy's
    handler does the same. *)
Theorem every_text_message_restarts_reception
    (rc : ReceivedChunks) (m : Message) (meta : Metadata) (text : string)
    (before after : list Message) :
  parses m = true ->
  handleIncomingChunk rc (Text meta)
    = ({| chunks := [];
          expectedName := Some (meta_name meta);
          expectedSize := Some (meta_size meta) |},
       [Progress (Int 0); Log (Receiving (meta_name meta) (meta_size meta))]) /\
  fst (receive noChunks (before ++ Text meta :: after))
    = fst (receive noChunks (Text meta :: after)) /\
  fst (Basic.handleIncomingChunk rc (Text meta))
    = {| chunks := [];
         expectedName := Some (meta_name meta);
         expectedSize := Some (meta_size meta) |} /\
  fst (Basic.receive noChunks (before ++ Text meta :: after))
    = fst (Basic.receive noChunks (Text meta :: after)) /\
  fst (handleIncomingChunk rc m)
    = {| chunks := [];
         expectedName := declaredName m;
         expectedSize := declaredSize m |} /\
  uncaught (snd (handleIncomingChunk rc m))
    = match m with
      | Null | NoSize _ => [TypeError]
      | _ => []
      end /\
  receive rc (before ++ m :: after)
    = (fst (receive noChunks (m :: after)),
       snd (receive rc before) ++ snd (receive noChunks (m :: after))) /\
  fst (Basic.handleIncomingChunk rc m) = fst (handleIncomingChunk rc m) /\
  uncaught (snd (Basic.handleIncomingChunk rc m))
    = uncaught (snd (handleIncomingChunk rc m)) /\
  fst (Basic.receive rc (before ++ m :: after))
    = fst (Basic.receive noChunks (m :: after)) /\
  handleIncomingChunk rc (NotJSON text) = (rc, [Uncaught SyntaxError]) /\
  Basic.handleIncomingChunk rc (NotJSON text)
    = (rc, [Uncaught SyntaxError]) /\
  receive rc (before ++ NotJSON text :: after)
    = (fst (receive rc (before ++ after)),
       snd (receive rc before)
       ++ Uncaught SyntaxError
       :: snd (receive (fst (receive rc before)) after)) /\
  fst (Basic.receive rc (before ++ NotJSON text :: after))
    = fst (Basic.receive rc (before ++ after)).
Proof.
  intros Hm.
  assert (Hstream : forall (r : ReceivedChunks) (x : Message),
             parses x = true ->
             receive r (before ++ x :: after)
             = (fst (receive noChunks (x :: after)),
                snd (receive r before)
                ++ snd (receive noChunks (x :: after)))).
  { intros r x Hx. rewrite receive_app.
    rewrite (receive_parsed (fst (receive r before)) noChunks x after Hx).
    reflexivity. }
  assert (Hbasic : forall (r : ReceivedChunks) (x : Message),
             parses x = true ->
             fst (Basic.receive r (before ++ x :: after))
             = fst (Basic.receive noChunks (x :: after))).
  { intros r x Hx.
    destruct (basic_receive (before ++ x :: after) r) as (-> & _).
    destruct (basic_receive (x :: after) noChunks) as (-> & _).
    rewrite (Hstream r x Hx). reflexivity. }
  split; [reflexivity|].
  split; [rewrite (Hstream noChunks (Text meta) eq_refl); reflexivity|].
  split; [reflexivity|].
  split; [exact (Hbasic noChunks (Text meta) eq_refl)|].
  split; [destruct m; try discriminate; reflexivity|].
  split; [destruct m; try discriminate; reflexivity|].
  split; [exact (Hstream rc m Hm)|].
  split; [destruct m; try discriminate; reflexivity|].
  split; [destruct m; try discriminate; reflexivity|].
  split; [exact (Hbasic rc m Hm)|].
  split; [reflexivity|]. split; [reflexivity|].
  assert (Hdrop : receive rc (before ++ NotJSON text :: after)
                  = (fst (receive rc (before ++ after)),
                     snd (receive rc before)
                     ++ Uncaught SyntaxError
                     :: snd (receive (fst (receive rc before)) after))).
  { rewrite !receive_app, receive_NotJSON. reflexivity. }
  split; [exact Hdrop|].
  destruct (basic_receive (before ++ NotJSON text :: after) rc) as (-> & _).
  destruct (basic_receive (before ++ after) rc) as (-> & _).
  rewrite Hdrop. reflexivity.
Qed.

Lemma every_text_message_restarts_reception_witness :
  parses (Text {| meta_name := "b"; meta_size := 9 |}) = true /\
  fst (handleIncomingChunk
         {| chunks := [[x01]]; expectedName := Some "a";
            expectedSize := Some 5 |}
         (Text {| meta_name := "b"; meta_size := 9 |}))
    = {| chunks := []; expectedName := Some "b"; expectedSize := Some 9 |} /\
  handleIncomingChunk
    {| chunks := [[x01]]; expectedName := Some "a"; expectedSize := Some 5 |}
    (NotJSON "hello")
    = ({| chunks := [[x01]]; expectedName := Some "a";
          expectedSize := Some 5 |},
       [Uncaught SyntaxError]).
Proof.
  assert (H1 : parses (Text {| meta_name := "b"; meta_size := 9 |}) = true)
    by reflexivity.
  split; [exact H1|].
  destruct (every_text_message_restarts_reception
              {| chunks := [[x01]]; expectedName := Some "a";
                 expectedSize := Some 5 |}
              (Text {| meta_name := "b"; meta_size := 9 |})
              {| meta_name := "b"; meta_size := 9 |} "hello" [] [] H1)
    as (_ & _ & _ & _ & Hreset & _ & _ & _ & _ & _ & Hkept & _).
  split; [exact Hreset | exact Hkept].
Defined.

(** C8 fails as worded: a second text message, arriving after one chunk of
    a five-byte transfer, empties the accumulator and replaces the declared
    name and size. *)
Lemma second_text_message_replaces_metadata :
  receive noChunks [Text {| meta_name := "a"; meta_size := 5 |};
                    Binary [x01]]
    = ({| chunks := [[x01]]; expectedName := Some "a";
          expectedSize := Some 5 |},
       [Progress (Int 0); Log (Receiving "a" 5); Progress (Int 20)]) /\
  fst (handleIncomingChunk
         {| chunks := [[x01]]; expectedName := Some "a";
            expectedSize := Some 5 |}
         (Text {| meta_name := "b"; meta_size := 9 |}))
    = {| chunks := []; expectedName := Some "b"; expectedSize := Some 9 |} /\
  ~ keepsFirstMetadata
      {| chunks := [[x01]]; expectedName := Some "a";
         expectedSize := Some 5 |}
      {| meta_name := "b"; meta_size := 9 |}.
Proof.
  split; [vm_compute; reflexivity|]. split; [reflexivity|].
  unfold keepsFirstMetadata. cbn [handleIncomingChunk fst meta_name meta_size].
  discriminate.
Qed.

(* ===================================================================== *)
(** ** Sender and receiver together *)
(* ===================================================================== *)

Lemma chunksFrom_snoc (file : File) (k : nat) :
  chunksFrom file 0 (S k) = chunksFrom file 0 k ++ [chunkAt file k].
Proof. unfold chunksFrom. rewrite seq_S, map_app. reflexivity. Qed.

(** The first [m] chunks hold the first [m * CHUNK_SIZE] bytes, or the
    whole file. *)
Lemma totalLength_chunksFrom (file : File) (m : nat) :
  totalLength (chunksFrom file 0 m) =
  Z.min (Z.of_nat m * CHUNK_SIZE) (size file).
Proof.
  pose proof CHUNK_SIZE_pos.
  rewrite totalLength_concat. unfold chunksFrom.
  rewrite (map_ext _ _ (chunkAt_eq file)), concat_chunks.
  rewrite Nat.mul_0_l. cbn [skipn]. unfold byteLength, size, byteLength.
  rewrite length_firstn, Nat2Z.inj_min, Nat2Z.inj_mul, Z2Nat.id by lia.
  reflexivity.
Qed.

(** The receiver, holding the first [k] chunks of a file whose size was
    declared, is fed the remaining [j] chunks: it reports the file once,
    with the last of them. *)
Lemma receive_remaining_chunks (file : File) (j : nat) :
  forall (k : nat) (rc : ReceivedChunks),
    (k + j = Z.to_nat (totalChunks file))%nat ->
    chunks rc = chunksFrom file 0 k ->
    expectedSize rc = Some (size file) ->
    downloads (snd (receive rc (map Binary (chunksFrom file k j)))) =
    match j with
    | O => []
    | S _ => [(content file, downloadName (expectedName rc))]
    end.
Proof.
  induction j as [|j IH]; intros k rc Hn Hchunks Hsize; [reflexivity|].
  unfold chunksFrom. cbn [seq map receive]. fold (chunksFrom file (S k) j).
  pose proof (handleIncomingChunk_downloads rc (chunkAt file k)) as Hd.
  pose proof (handleIncomingChunk_binary_state rc (chunkAt file k)) as Hst.
  destruct (handleIncomingChunk rc (Binary (chunkAt file k))) as [rc1 evs1].
  cbn [fst snd] in Hd, Hst.
  specialize (IH (S k) rc1).
  destruct (receive rc1 (map Binary (chunksFrom file (S k) j)))
    as [rc2 evs2].
  cbn [snd] in *. rewrite downloads_app, Hd, Hsize. cbn [geb].
  rewrite Hchunks.
  assert (Htot : totalLength (chunksFrom file 0 k) + byteLength (chunkAt file k)
                 = totalLength (chunksFrom file 0 (S k))).
  { rewrite chunksFrom_snoc, totalLength_app. cbn [totalLength]. lia. }
  rewrite Htot. clear Htot.
  assert (Hcat : concat (chunksFrom file 0 k) ++ chunkAt file k
                 = concat (chunksFrom file 0 (S k))).
  { rewrite chunksFrom_snoc, concat_app. cbn [concat].
    rewrite app_nil_r. reflexivity. }
  rewrite totalLength_chunksFrom.
  destruct (Z.ltb (Z.of_nat (S k) * CHUNK_SIZE) (size file)) eqn:Hmore.
  - (* chunks remain *)
    pose proof Hmore as Hlt. apply more_chunks in Hlt.
    apply Z.ltb_lt in Hmore.
    destruct (Z.leb_spec (size file)
                (Z.min (Z.of_nat (S k) * CHUNK_SIZE) (size file)));
      [lia|].
    cbn [app]. rewrite IH.
    + destruct j as [|j']; [lia|]. rewrite Hst. reflexivity.
    + lia.
    + rewrite Hst. cbn [chunks]. rewrite Hchunks. symmetry.
      apply chunksFrom_snoc.
    + rewrite Hst. exact Hsize.
  - (* this was the last chunk *)
    assert (Hlast : ~ (S k < Z.to_nat (totalChunks file))%nat).
    { intros Hlt. apply more_chunks in Hlt. congruence. }
    apply Z.ltb_ge in Hmore.
    destruct (Z.leb_spec (size file)
                (Z.min (Z.of_nat (S k) * CHUNK_SIZE) (size file)));
      [|lia].
    assert (j = 0)%nat by lia. subst j.
    rewrite IH.
    + rewrite Hcat. replace (S k) with (Z.to_nat (totalChunks file)) by lia.
      rewrite chunksFrom_concat. reflexivity.
    + lia.
    + rewrite Hst. cbn [chunks]. rewrite Hchunks. symmetry.
      apply chunksFrom_snoc.
    + rewrite Hst. exact Hsize.
Qed.

(** What the receiver makes of a whole transmission: a file of at least
    one byte is reported once, byte for byte, under its name. *)
Lemma receive_transmission (file : File) :
  0 < size file ->
  downloads (snd (receive noChunks (transmission file))) =
  [(content file, downloadName (Some (name file)))].
Proof.
  intros Hpos. unfold transmission. cbn [receive handleIncomingChunk].
  set (rc := {| chunks := [];
                expectedName := Some (meta_name _);
                expectedSize := Some (meta_size _) |}).
  pose proof (receive_remaining_chunks file (Z.to_nat (totalChunks file))
                0 rc eq_refl eq_refl eq_refl) as Hrest.
  destruct (receive rc _) as [rc' evs]. cbn [snd] in *.
  cbn [app downloads]. rewrite Hrest.
  destruct (Z.to_nat (totalChunks file)) eqn:Hn; [|reflexivity].
  pose proof (totalChunks_ceil file) as Hc. rewrite CHUNK_SIZE_eq in Hc.
  pose proof (totalChunks_nonneg file). lia.
Qed.

(** For a file of at least one byte the receiver rebuilds what the sender
    of [script.js] was given. *)
Lemma transfer_roundtrip (file : File) (c : Channel) (fuel : nat) :
  (enoughFuel file c <= fuel)%nat ->
  hd Returns (outcomes c) = Returns ->
  0 < size file ->
  exists evs : list Event,
    sendFile fuel (Some file) (Some c) = Some (evs, Resolved) /\
    downloads (snd (receive noChunks (wire evs))) =
    [(content file, downloadName (Some (name file)))].
Proof.
  intros Hfuel Hmeta Hpos.
  destruct (sendFile_wire file c fuel Hfuel Hmeta)
    as (evs & Hrun & Hw & _ & _).
  exists evs. split; [exact Hrun|].
  rewrite Hw. apply receive_transmission, Hpos.
Qed.

(** C2 on the code.  What the receiver makes of what [sendFile] put on the
    wire: for a file of at least one byte, one terminal event carrying the
    file's bytes; for the empty file, none.  There the sender writes the
    metadata frame and no binary frame, and reports success; the receiver,
    given that frame, stores the name and the size 0 and emits no terminal
    event, because it tests for completion only when a binary message
    arrives.  The second copy behaves alike. *)
Theorem empty_file_is_never_received (file : File) (n : string) :
  (exists evs : list Event,
      sendFile (enoughFuel file quiet) (Some file) (Some quiet)
        = Some (evs, Resolved) /\
      downloads (snd (receive noChunks (wire evs)))
        = if 0 <? size file
          then [(content file, downloadName (Some (name file)))]
          else []) /\
  sendFile 1 (Some {| name := n; content := [] |}) (Some quiet)
    = Some ([Log (Sending n 0);
             Write 0 (Text {| meta_name := n; meta_size := 0 |}) true;
             Log FileSent], Resolved) /\
  receive noChunks [Text {| meta_name := n; meta_size := 0 |}]
    = ({| chunks := []; expectedName := Some n; expectedSize := Some 0 |},
       [Progress (Int 0); Log (Receiving n 0)]) /\
  downloads
    (snd (receive noChunks [Text {| meta_name := n; meta_size := 0 |}]))
    = [] /\
  Basic.sendFile 1 (Some {| name := n; content := [] |}) (Some quiet)
    = Some ([Log (Sending n 0);
             Write 0 (Text {| meta_name := n; meta_size := 0 |}) true;
             Log FileSent], Resolved) /\
  downloads
    (snd (Basic.receive noChunks
            [Text {| meta_name := n; meta_size := 0 |}]))
    = [].
Proof.
  split; [|repeat split].
  destruct (sendFile_wire file quiet (enoughFuel file quiet)
              (Nat.le_refl _) eq_refl)
    as (evs & Hrun & Hwire & _ & _).
  exists evs. split; [exact Hrun|]. rewrite Hwire.
  destruct (Z.ltb_spec 0 (size file)) as [Hpos|Hempty].
  - apply receive_transmission, Hpos.
  - pose proof (size_nonneg file) as Hsize.
    assert (Hzero : size file = 0) by lia.
    unfold transmission, totalChunks. rewrite Hzero. reflexivity.
Qed.

(* ===================================================================== *)
(** ** Signaling *)
(* ===================================================================== *)

Section SignalingProperties.

Import Signaling.

Context {PC : Type} `{PeerConnection PC}.

Lemma sameButConsole_print (w : Console) (a : Client PC) :
  sameButConsole (print w a) a.
Proof. repeat split. Qed.

(** [handleSignal] never reads the console: on clients that differ in the
    console only it ends alike and leaves clients that differ in the
    console only. *)
Lemma handleSignal_console (msg : Envelope) (a b : Client PC) :
  sameButConsole a b ->
  sameButConsole (fst (handleSignal msg a)) (fst (handleSignal msg b)) /\
  snd (handleSignal msg a) = snd (handleSignal msg b).
Proof.
  destruct a as [pa da sa wa ca ua], b as [pb db sb wb cb ub].
  unfold sameButConsole. cbn [pc dc sessionId ws unhandled].
  intros (-> & -> & -> & -> & ->).
  unfold handleSignal, await, log, print, set_pc, ws_send.
  cbn [pc dc sessionId ws console unhandled].
  repeat match goal with
         | |- context [if ?c then _ else _] => destruct c
         | |- context [match ?x with _ => _ end] => destruct x
         end; cbn [fst snd pc dc sessionId ws unhandled]; repeat split.
Qed.

Lemma onmessage_console (JSON_parse : string -> option JsValue)
    (e : WsData) (a b : Client PC) :
  sameButConsole a b ->
  sameButConsole (onmessage JSON_parse e a) (onmessage JSON_parse e b).
Proof.
  intros Hab. unfold onmessage.
  destruct (JSON_parse _) as [[|msg]|].
  - destruct Hab as (?&?&?&?&?). repeat split; cbn; congruence.
  - destruct (handleSignal_console msg a b Hab) as (Hst & Hc).
    destruct (handleSignal msg a) as [a' ca], (handleSignal msg b) as [b' cb].
    cbn [fst snd] in *. subst cb.
    destruct ca; [exact Hst|].
    destruct Hst as (?&?&?&?&?). repeat split; cbn; congruence.
  - destruct Hab as (?&?&?&?&?). repeat split; cbn; congruence.
Qed.

Lemma messages_console (JSON_parse : string -> option JsValue)
    (es : list WsData) :
  forall a b : Client PC,
    sameButConsole a b ->
    sameButConsole (messages JSON_parse es a) (messages JSON_parse es b).
Proof.
  induction es as [|e es IH]; intros a b Hab; [exact Hab|].
  cbn [messages]. apply IH, onmessage_console, Hab.
Qed.

(** C7.  A signaling message whose payload the parser refuses is dropped:
    the handler prints one warning and does nothing else (nothing is sent,
    the connection is untouched, no promise rejects); the messages after it
    are handled from there, and what they do to the connection, to the
    relay and to the session is what they would have done had the refused
    message never arrived. *)
Theorem malformed_message_is_dropped
    (JSON_parse : string -> option JsValue)
    (e : WsData) (rest : list WsData) (st : Client PC) :
  JSON_parse (payload e) = None ->
  onmessage JSON_parse e st
    = print (console_warn "Non-JSON WebSocket message ignored:") st /\
  sameButConsole (onmessage JSON_parse e st) st /\
  messages JSON_parse (e :: rest) st
    = messages JSON_parse rest
        (print (console_warn "Non-JSON WebSocket message ignored:") st) /\
  sameButConsole (messages JSON_parse (e :: rest) st)
                 (messages JSON_parse rest st).
Proof.
  intros Hbad.
  assert (Hdrop : onmessage JSON_parse e st
            = print (console_warn "Non-JSON WebSocket message ignored:") st).
  { unfold onmessage. cbv zeta. rewrite Hbad. reflexivity. }
  split; [exact Hdrop|]. split; [|split].
  - rewrite Hdrop. apply sameButConsole_print.
  - cbn [messages]. rewrite Hdrop. reflexivity.
  - cbn [messages]. rewrite Hdrop.
    apply messages_console, sameButConsole_print.
Qed.

(** C5, as the code has it.  [handleSignal] does not look at the
    envelope's session id: an envelope is handled in the same way under any
    session id, and a whole stream of messages leaves the client in the
    same state whatever session ids its envelopes carry. *)
Theorem handleSignal_does_not_read_sessionId
    (JSON_parse : string -> option JsValue)
    (sessionOf : string -> option string)
    (msg : Envelope) (sid : option string)
    (es : list WsData) (st : Client PC) :
  handleSignal (withSessionId sid msg) st = handleSignal msg st /\
  messages (fun text => option_map (relabel (sessionOf text))
                                   (JSON_parse text)) es st
    = messages JSON_parse es st.
Proof.
  split; [reflexivity|].
  revert st. induction es as [|e es IH]; intros st; [reflexivity|].
  cbn [messages]. rewrite IH. f_equal.
  unfold onmessage. cbv zeta.
  destruct (JSON_parse (payload e)) as [[|m]|]; reflexivity.
Qed.

(** C6.  An answer envelope (type [answer], carrying an SDP) that arrives
    while the connection is stable is a no-op: a warning is printed, the
    remote description is not set, the connection and everything but the
    console stay as they were, and the handler ends normally.  One that
    arrives in any other state is applied: [setRemoteDescription] is called
    with [{ type: 'answer', sdp }], and the connection is what that call
    leaves. *)
Theorem answer_is_applied_unless_stable (msg : Envelope) (st : Client PC) :
  msg_type msg = Some "answer" ->
  truthy (msg_sdp msg) = true ->
  if is_stable (signalingState (pc st)) then
    handleSignal msg st
      = (print (console_warn "Ignoring duplicate answer (already stable)") st,
         Resolved) /\
    sameButConsole (fst (handleSignal msg st)) st
  else
    handleSignal msg st
      = match setRemoteDescription
                {| desc_type := answer; desc_sdp := value (msg_sdp msg) |}
                (pc st) with
        | Some p =>
            (log "Peer connection established"
               (set_pc p
                  (log "Received answer, establishing connection..." st)),
             Resolved)
        | None =>
            (log "Received answer, establishing connection..." st, Rejected)
        end.
Proof.
  intros Htype Hsdp.
  assert (Hrun : handleSignal msg st =
            if is_stable (signalingState (pc st)) then
              (print (console_warn
                        "Ignoring duplicate answer (already stable)") st,
               Resolved)
            else
              let st1 := log "Received answer, establishing connection..." st in
              await (setRemoteDescription
                       {| desc_type := answer;
                          desc_sdp := value (msg_sdp msg) |} (pc st1))
                    st1
                    (fun p => (log "Peer connection established"
                                   (set_pc p st1), Resolved))).
  { unfold handleSignal, type_is. rewrite Htype, Hsdp. reflexivity. }
  rewrite Hrun. destruct (is_stable (signalingState (pc st))).
  - split; [reflexivity|]. apply sameButConsole_print.
  - reflexivity.
Qed.

End SignalingProperties.

Section SignalingExamples.

Import Signaling.

Lemma malformed_message_is_dropped_witness :
  parseKnownTexts (payload (WsString "not json at all")) = None /\
  messages parseKnownTexts
    [WsString "not json at all"; WsBlob joinedText] startedSender
    = messages parseKnownTexts [WsBlob joinedText]
        (print (console_warn "Non-JSON WebSocket message ignored:")
               startedSender) /\
  sameButConsole
    (messages parseKnownTexts
       [WsString "not json at all"; WsBlob joinedText] startedSender)
    (messages parseKnownTexts [WsBlob joinedText] startedSender) /\
  map msg_type
      (ws (messages parseKnownTexts
             [WsString "not json at all"; WsBlob joinedText] startedSender))
    = [Some "create-session"; Some "offer"].
Proof.
  assert (Hbad : parseKnownTexts (payload (WsString "not json at all")) = None)
    by reflexivity.
  split; [exact Hbad|].
  destruct (malformed_message_is_dropped parseKnownTexts
              (WsString "not json at all") [WsBlob joinedText]
              startedSender Hbad) as (_ & _ & Hrest & Hsame).
  split; [exact Hrest|]. split; [exact Hsame|].
  rewrite Hrest. reflexivity.
Defined.

(** C5 fails as worded: the sender of session [k3x9q2a], waiting for its
    answer, is handed an answer of session [zzzzzzz] and applies it. *)
Lemma foreign_answer_is_applied :
  sessionId offering = Some "k3x9q2a" /\
  msg_sessionId foreignAnswer = Some "zzzzzzz" /\
  state (pc offering) = have_local_offer /\
  state (pc (fst (handleSignal foreignAnswer offering))) = stable /\
  remoteDescription (pc (fst (handleSignal foreignAnswer offering)))
    = Some {| desc_type := answer; desc_sdp := "v=0 stranger" |} /\
  ~ ignoresForeignSession foreignAnswer offering.
Proof.
  repeat (split; [reflexivity|]).
  intros Hclaim.
  assert (Hdiff : msg_sessionId foreignAnswer <> sessionId offering)
    by discriminate.
  apply Hclaim in Hdiff.
  apply (f_equal (fun out => state (pc (fst out)))) in Hdiff.
  vm_compute in Hdiff. discriminate.
Qed.

Lemma answer_is_applied_unless_stable_witness :
  msg_type foreignAnswer = Some "answer" /\
  truthy (msg_sdp foreignAnswer) = true /\
  state (pc (fst (handleSignal foreignAnswer offering))) = stable /\
  handleSignal foreignAnswer (fst (handleSignal foreignAnswer offering))
    = (print (console_warn "Ignoring duplicate answer (already stable)")
             (fst (handleSignal foreignAnswer offering)),
       Resolved).
Proof.
  assert (H1 : msg_type foreignAnswer = Some "answer") by reflexivity.
  assert (H2 : truthy (msg_sdp foreignAnswer) = true) by reflexivity.
  repeat (split; [assumption|]).
  pose proof (answer_is_applied_unless_stable foreignAnswer offering H1 H2)
    as Hfirst.
  pose proof (answer_is_applied_unless_stable foreignAnswer
                (fst (handleSignal foreignAnswer offering)) H1 H2)
    as Hsecond.
  change (is_stable (signalingState (pc offering))) with false in Hfirst.
  change (is_stable (signalingState
                       (pc (fst (handleSignal foreignAnswer offering)))))
    with true in Hsecond.
  cbv iota in Hfirst, Hsecond.
  split; [rewrite Hfirst; reflexivity | exact (proj1 Hsecond)].
Defined.

End SignalingExamples.

(* ===================================================================== *)
(** ** Signaling: what the handlers keep and what they never do *)
(* ===================================================================== *)

Section SessionProperties.

Import Signaling.
Import Session.

Context {PC : Type} `{PeerConnection PC}.

Ltac extension :=
  first [ exists []; rewrite app_nil_r; reflexivity
        | eexists; rewrite <- ?app_assoc; reflexivity ].

Ltac one_envelope :=
  eexists; split; [reflexivity|]; split; [cbn [length]; lia|];
  split; [|intros; discriminate];
  constructor; [|constructor];
  split; [first [left; reflexivity | right; reflexivity] | reflexivity].

Ltac no_envelope :=
  exists []; split; [rewrite app_nil_r; reflexivity|];
  split; [cbn [length]; lia|]; split; [constructor|reflexivity].

Ltac no_envelope_only :=
  exists []; split; [rewrite app_nil_r; reflexivity|];
  split; [cbn [length]; lia|constructor].

(** One call of [handleSignal]: the session id, the data channel flag and
    the count of unhandled rejections stay, the console and the relay
    output grow at the end, at most one envelope goes out, it is an offer
    or an answer under the session id of the client, and none goes out
    when the handler rejects. *)
Lemma handleSignal_step (msg : Envelope) (st : Client PC) :
  sessionId (fst (handleSignal msg st)) = sessionId st /\
  dc (fst (handleSignal msg st)) = dc st /\
  unhandled (fst (handleSignal msg st)) = unhandled st /\
  (exists lines : list Console,
      console (fst (handleSignal msg st)) = console st ++ lines) /\
  (exists new : list Envelope,
      ws (fst (handleSignal msg st)) = ws st ++ new /\
      (length new <= 1)%nat /\
      Forall (negotiationOf (sessionId st)) new /\
      (snd (handleSignal msg st) = Rejected -> new = [])).
Proof.
  destruct st as [p d sid w c u].
  unfold handleSignal, await, log, print, set_pc, ws_send.
  cbn [pc dc sessionId ws console unhandled].
  repeat match goal with
         | |- context [if ?b then _ else _] => destruct b
         | |- context [match ?x with _ => _ end] => destruct x
         end;
    cbn [fst snd pc dc sessionId ws console unhandled];
    (split; [reflexivity|]); (split; [reflexivity|]);
    (split; [reflexivity|]); (split; [extension|]);
    first [one_envelope | no_envelope].
Qed.

Lemma onmessage_step (JSON_parse : string -> option JsValue)
    (e : WsData) (st : Client PC) :
  sessionId (onmessage JSON_parse e st) = sessionId st /\
  dc (onmessage JSON_parse e st) = dc st /\
  (unhandled st <= unhandled (onmessage JSON_parse e st)
                <= S (unhandled st))%nat /\
  (exists lines : list Console,
      console (onmessage JSON_parse e st) = console st ++ lines) /\
  (exists new : list Envelope,
      ws (onmessage JSON_parse e st) = ws st ++ new /\
      (length new <= 1)%nat /\
      Forall (negotiationOf (sessionId st)) new).
Proof.
  unfold onmessage. cbv zeta.
  destruct (JSON_parse (payload e)) as [[|msg]|].
  - cbn. repeat split; try lia; [extension|no_envelope_only].
  - destruct (handleSignal_step msg st)
      as (Hsid & Hdc & Hun & Hcon & new & Hws & Hlen & Htag & _).
    destruct (handleSignal msg st) as [st' [|]]; cbn [fst snd] in *;
      cbn [unhandledRejection sessionId dc unhandled console ws];
      (split; [exact Hsid|]); (split; [exact Hdc|]);
      (split; [lia|]); (split; [exact Hcon|]);
      exists new; repeat split; assumption.
  - cbn. repeat split; try lia.
    + eexists. reflexivity.
    + no_envelope_only.
Qed.

(** X1.  However many messages arrive on the relay connection and whatever
    they hold, the client keeps its session id and its data channel flag;
    what it has printed and what it has sent stay in place and grow at the
    end; it sends at most one envelope per message, each an offer or an
    answer tagged with its own session id; and the count of unhandled
    rejections grows by at most one per message. *)
Theorem messages_keep_the_session
    (JSON_parse : string -> option JsValue)
    (es : list WsData) (st : Client PC) :
  sessionId (messages JSON_parse es st) = sessionId st /\
  dc (messages JSON_parse es st) = dc st /\
  (unhandled st <= unhandled (messages JSON_parse es st)
                <= unhandled st + length es)%nat /\
  (exists lines : list Console,
      console (messages JSON_parse es st) = console st ++ lines) /\
  (exists new : list Envelope,
      ws (messages JSON_parse es st) = ws st ++ new /\
      (length new <= length es)%nat /\
      Forall (negotiationOf (sessionId st)) new).
Proof.
  revert st. induction es as [|e es IH]; intros st; cbn [messages length].
  - split; [reflexivity|]. split; [reflexivity|]. split; [lia|].
    split; [extension|no_envelope_only].
  - destruct (onmessage_step JSON_parse e st)
      as (Hsid & Hdc & Hun & (l1 & Hcon) & n1 & Hws & Hlen & Htag).
    destruct (IH (onmessage JSON_parse e st))
      as (Hsid' & Hdc' & Hun' & (l2 & Hcon') & n2 & Hws' & Hlen' & Htag').
    split; [congruence|]. split; [congruence|]. split; [lia|]. split.
    + exists (l1 ++ l2). rewrite Hcon', Hcon, app_assoc. reflexivity.
    + exists (n1 ++ n2). rewrite Hws', Hws, app_assoc.
      split; [reflexivity|]. split; [rewrite length_app; lia|].
      apply Forall_app. split; [exact Htag|].
      rewrite Hsid in Htag'. exact Htag'.
Qed.

(** X2.  A handler that rejects has sent nothing, and only the handling of
    a [session-joined], of an offer on a client without data channel, or of
    an answer outside the stable state can reject: a failure to add an ICE
    candidate never does. *)
Theorem rejection_sends_nothing (msg : Envelope) (st : Client PC) :
  snd (handleSignal msg st) = Rejected ->
  ws (fst (handleSignal msg st)) = ws st /\
  type_is msg "ice-candidate" = false /\
  (type_is msg "session-joined"
   || (type_is msg "offer" && truthy (msg_sdp msg) && negb (dc st))
   || (type_is msg "answer" && truthy (msg_sdp msg)
       && negb (is_stable (signalingState (pc st))))) = true.
Proof.
  intros Hrej.
  destruct (handleSignal_step msg st)
    as (_ & _ & _ & _ & new & Hws & _ & _ & Hnone).
  rewrite Hws, (Hnone Hrej), app_nil_r. split; [reflexivity|].
  revert Hrej. unfold handleSignal, await, type_is.
  destruct (msg_type msg) as [t|]; cbn [andb orb]; [|discriminate].
  destruct (t =? "session-joined")%string eqn:Hj.
  { apply String.eqb_eq in Hj. subst t. intros _. split; reflexivity. }
  destruct (t =? "offer")%string eqn:Ho.
  { apply String.eqb_eq in Ho. subst t. cbn [andb orb].
    destruct (truthy (msg_sdp msg)); cbn [andb orb].
    - destruct (dc st); [discriminate|]. intros _. split; reflexivity.
    - destruct (msg_candidate msg); discriminate. }
  destruct (t =? "answer")%string eqn:Ha.
  { apply String.eqb_eq in Ha. subst t. cbn [andb orb].
    destruct (truthy (msg_sdp msg)); cbn [andb orb].
    - destruct (is_stable (signalingState (pc st))); [discriminate|].
      intros _. split; reflexivity.
    - destruct (msg_candidate msg); discriminate. }
  cbn [andb orb].
  destruct (t =? "ice-candidate")%string; [|discriminate].
  destruct (msg_candidate msg) as [c|]; [|discriminate].
  destruct (addIceCandidate c (pc st)); discriminate.
Qed.

(** X3.  An envelope that is none of the shapes the handler acts upon (an
    unknown type, an offer or an answer without SDP, an ICE message without
    candidate, no type at all) is ignored without a trace: the client is
    left exactly as it was, nothing is printed and the handler resolves. *)
Theorem unactionable_envelope_is_ignored (msg : Envelope) (st : Client PC) :
  actionable msg = false -> handleSignal msg st = (st, Resolved).
Proof.
  unfold actionable, handleSignal. intros Hna.
  apply orb_false_iff in Hna. destruct Hna as [Hna Hice].
  apply orb_false_iff in Hna. destruct Hna as [Hna Hans].
  apply orb_false_iff in Hna. destruct Hna as [Hjoin Hoff].
  rewrite Hjoin, Hoff, Hans.
  destruct (type_is msg "ice-candidate"); [|reflexivity].
  destruct (msg_candidate msg); [discriminate|reflexivity].
Qed.

(** X4.  Once a data channel object exists on a client (the sender has
    created one, the receiver has been handed one), an offer is never
    applied: the connection, the relay output and the session stay as they
    are, nothing but a warning is printed (and not even that when the offer
    carries no SDP), and the handler resolves. *)
Theorem offer_is_ignored_once_a_data_channel_exists
    (msg : Envelope) (st : Client PC) :
  msg_type msg = Some "offer" ->
  dc st = true ->
  handleSignal msg st
    = (if truthy (msg_sdp msg)
       then print (console_warn "Ignoring duplicate offer on sender side") st
       else st,
       Resolved) /\
  sameButConsole (fst (handleSignal msg st)) st /\
  handleSignal msg (ondatachannel st)
    = (if truthy (msg_sdp msg)
       then print (console_warn "Ignoring duplicate offer on sender side")
                  (ondatachannel st)
       else ondatachannel st,
       Resolved).
Proof.
  intros Htype Hdc.
  assert (Hrun : forall st' : Client PC,
             dc st' = true ->
             handleSignal msg st'
             = (if truthy (msg_sdp msg)
                then print (console_warn
                              "Ignoring duplicate offer on sender side") st'
                else st',
                Resolved)).
  { intros st' Hdc'. unfold handleSignal, type_is. rewrite Htype, Hdc'.
    cbn [String.eqb Ascii.eqb Bool.eqb andb].
    destruct (truthy (msg_sdp msg)); [reflexivity|].
    destruct (msg_candidate msg); reflexivity. }
  split; [apply Hrun, Hdc|]. split; [|apply Hrun; reflexivity].
  rewrite (Hrun st Hdc). destruct (truthy (msg_sdp msg)); repeat split.
Qed.

(** X5.  The handling of an ICE message never fails and never sends
    anything: with a candidate, the candidate is handed to
    [addIceCandidate] and the connection is what that call leaves, or, when
    the call rejects, an error is printed and the connection stays; the
    handler resolves in both cases.  The envelope that [pc.onicecandidate]
    sends for a local candidate is such a message, tagged with the session
    id of its sender; for the end of the gathering nothing is sent. *)
Theorem ice_candidate_failure_is_not_fatal
    (msg : Envelope) (c : Candidate) (st other : Client PC) :
  msg_type msg = Some "ice-candidate" ->
  msg_candidate msg = Some c ->
  handleSignal msg st
    = match addIceCandidate c (pc st) with
      | Some p => (set_pc p st, Resolved)
      | None =>
          (print (console_error "Error adding ICE candidate:") st, Resolved)
      end /\
  snd (handleSignal msg st) = Resolved /\
  ws (fst (handleSignal msg st)) = ws st /\
  ws (onicecandidate (Some c) other)
    = ws other ++ [{| msg_type := Some "ice-candidate"; msg_sdp := None;
                      msg_candidate := Some c;
                      msg_sessionId := sessionId other |}] /\
  handleSignal {| msg_type := Some "ice-candidate"; msg_sdp := None;
                  msg_candidate := Some c;
                  msg_sessionId := sessionId other |} st
    = handleSignal msg st /\
  onicecandidate None other = other.
Proof.
  intros Htype Hcand.
  assert (Hrun : handleSignal msg st
            = match addIceCandidate c (pc st) with
              | Some p => (set_pc p st, Resolved)
              | None =>
                  (print (console_error "Error adding ICE candidate:") st,
                   Resolved)
              end).
  { unfold handleSignal, type_is. rewrite Htype, Hcand. reflexivity. }
  split; [exact Hrun|]. rewrite Hrun.
  destruct (addIceCandidate c (pc st)) eqn:Hadd; repeat split;
    unfold handleSignal, type_is; cbn; rewrite Hadd; reflexivity.
Qed.

End SessionProperties.

Section SessionExamples.

Import Signaling.
Import Session.

Lemma substring_length (s : string) :
  forall n m : nat,
    String.length (substring n m s) = Nat.min m (String.length s - n).
Proof.
  induction s as [|ch s IH]; intros n m.
  - destruct n, m; reflexivity.
  - destruct n as [|n].
    + destruct m as [|m]; [reflexivity|].
      cbn [substring String.length]. rewrite IH. cbn [Nat.sub]. lia.
    + cbn [substring String.length Nat.sub]. apply IH.
Qed.

(** X18.  The session id that [startSender] makes up is what stands at
    positions 2 to 8 of the random text: it has at most seven characters,
    fewer when the text is short, and none when the text has no more than
    two.  That one id is stored as the session id, sent in
    [create-session] and put at the end of the link; a receiver started
    with it sends it in [join-session]. *)
Theorem session_id_comes_from_the_random_text
    (PC : Type) (randomText : string) (fresh fresh' : PC) :
  exists (sender receiver : Client PC),
    startSender opens fresh randomText
      = Some (sender, joinLink (slice randomText 2 9)) /\
    startReceiver opens fresh' (slice randomText 2 9) = Some receiver /\
    sessionId sender = Some (slice randomText 2 9) /\
    sessionId receiver = sessionId sender /\
    map msg_sessionId (ws sender) = [Some (slice randomText 2 9)] /\
    map msg_sessionId (ws receiver) = [Some (slice randomText 2 9)] /\
    String.length (slice randomText 2 9)
      = Nat.min 7 (String.length randomText - 2) /\
    (String.length (slice randomText 2 9) <= 7)%nat.
Proof.
  eexists. eexists. split; [reflexivity|]. split; [reflexivity|].
  cbn [sessionId ws print map msg_sessionId].
  repeat (split; [reflexivity|]).
  unfold slice. rewrite substring_length. cbn [Nat.sub]. split; lia.
Qed.


End SessionExamples.

(* ===================================================================== *)
(** ** Send path: wire format, retries, the two copies *)
(* ===================================================================== *)

Lemma chunkAt_length (file : File) (k : nat) :
  (k < Z.to_nat (totalChunks file))%nat ->
  byteLength (chunkAt file k) = chunkLength file k /\
  1 <= chunkLength file k <= CHUNK_SIZE.
Proof.
  intros Hk. apply more_chunks in Hk. apply Z.ltb_lt in Hk.
  pose proof CHUNK_SIZE_pos as HC.
  rewrite chunkAt_eq. unfold byteLength, chunkLength.
  rewrite length_firstn, length_skipn, Nat2Z.inj_min, Z2Nat.id by lia.
  unfold size, byteLength in *.
  rewrite Nat2Z.inj_sub, Nat2Z.inj_mul, Z2Nat.id by
      (try lia; apply Nat2Z.inj_le; rewrite Nat2Z.inj_mul, Z2Nat.id; lia).
  lia.
Qed.

Lemma chunksFrom_lengths (file : File) (k n : nat) :
  (k + n <= Z.to_nat (totalChunks file))%nat ->
  map byteLength (chunksFrom file k n) = map (chunkLength file) (seq k n) /\
  Forall (fun b => 1 <= byteLength b <= CHUNK_SIZE) (chunksFrom file k n).
Proof.
  revert k. induction n as [|n IH]; intros k Hk;
    [split; [reflexivity|constructor]|].
  unfold chunksFrom. cbn [seq map]. fold (chunksFrom file (S k) n).
  destruct (IH (S k)) as (Hlen & Hall); [lia|].
  destruct (chunkAt_length file k) as (Hk1 & Hk2); [lia|].
  split.
  - rewrite Hk1, Hlen. reflexivity.
  - constructor; [rewrite Hk1; exact Hk2 | exact Hall].
Qed.

(** The send loop of the second copy reports the same percentages. *)
Lemma basic_sendLoop_progress (file : File) (fuel : nat) :
  forall (k : nat) (r : Run),
    (k <= Z.to_nat (totalChunks file))%nat ->
    (Z.to_nat (totalChunks file) - k < fuel)%nat ->
    Forall (fun o => o = Returns) (outcomes (dc r)) ->
    exists (r' : Run) (ext : list Event),
      Basic.sendLoop fuel file (Z.of_nat k * CHUNK_SIZE) r
        = Some (r', Resolved) /\
      events r' = events r ++ ext /\
      progress ext =
        offsetPercentages file k (Z.to_nat (totalChunks file) - k).
Proof.
  induction fuel as [|fuel IH]; intros k r Hk Hfuel Hret; [lia|].
  cbn [Basic.sendLoop].
  destruct (Z.of_nat k * CHUNK_SIZE <? size file) eqn:Hmore.
  - apply more_chunks in Hmore.
    set (chunk := slice file (Z.of_nat k * CHUNK_SIZE)
                        (Z.of_nat k * CHUNK_SIZE + CHUNK_SIZE)).
    destruct (dc_send_cases (Binary chunk) (suspend r))
      as [(Hok & _ & Ho & He)|(_ & Hthrow & _)].
    + destruct (dc_send (Binary chunk) (suspend r)) as [ok r2];
        cbn [fst snd] in *; subst ok.
      rewrite suspend_outcomes in Ho. rewrite suspend_events in He.
      replace (Z.of_nat k * CHUNK_SIZE + CHUNK_SIZE)
        with (Z.of_nat (S k) * CHUNK_SIZE) by lia.
      destruct (IH (S k)
                  (emit (Progress (sendPct (Z.of_nat (S k) * CHUNK_SIZE)
                                           (size file))) r2))
        as (r' & ext & Hrun & Hev & Hpr).
      * lia.
      * lia.
      * cbn [emit dc]. rewrite Ho. apply neverThrows_tl, Hret.
      * exists r'. eexists. split; [exact Hrun|]. split.
        { rewrite Hev. cbn [emit events]. rewrite He.
          rewrite <- !app_assoc. reflexivity. }
        { rewrite !progress_app, Hpr.
          replace (Z.to_nat (totalChunks file) - k)%nat
            with (S (Z.to_nat (totalChunks file) - S k)) by lia.
          reflexivity. }
    + rewrite suspend_outcomes in Hthrow.
      rewrite (neverThrows_hd _ Hret) in Hthrow. discriminate.
  - assert (Hdone : ~ (k < Z.to_nat (totalChunks file))%nat).
    { intros Hlt. apply more_chunks in Hlt. congruence. }
    exists r, []. rewrite app_nil_r.
    replace (Z.to_nat (totalChunks file) - k)%nat with 0%nat by lia.
    repeat split.
Qed.

Lemma basic_sendFile_progress (file : File) (c : Channel) (fuel : nat) :
  (enoughFuel file c <= fuel)%nat ->
  neverThrows c ->
  exists evs : list Event,
    Basic.sendFile fuel (Some file) (Some c) = Some (evs, Resolved) /\
    progress evs = offsetPercentages file 0 (Z.to_nat (totalChunks file)).
Proof.
  intros Hfuel Hret. unfold enoughFuel in Hfuel. unfold Basic.sendFile.
  set (r0 := emit (Log (Sending (name file) (size file)))
                  {| dc := c; events := [] |}).
  set (meta := Text {| meta_name := name file; meta_size := size file |}).
  destruct (dc_send_cases meta r0)
    as [(Hok & _ & Ho & He)|(_ & Hthrow & _)].
  - destruct (dc_send meta r0) as [ok r1]; cbn [fst snd] in *; subst ok.
    destruct (basic_sendLoop_progress file fuel 0 r1)
      as (r' & ext & Hrun & Hev & Hpr).
    + lia.
    + lia.
    + rewrite Ho. cbn [r0 emit dc]. apply neverThrows_tl, Hret.
    + cbn [Z.of_nat Z.mul] in Hrun. rewrite Hrun.
      eexists. split; [reflexivity|].
      cbn [emit events]. rewrite Hev, He.
      rewrite !progress_app, Hpr, Nat.sub_0_r.
      change (progress (events r0)) with (@nil integral).
      change (progress [Write (bufferedAmount (dc r0)) meta true])
        with (@nil integral).
      change (progress [Log FileSent]) with (@nil integral).
      cbn [app]. apply app_nil_r.
  - cbn [r0 emit dc] in Hthrow.
    rewrite (neverThrows_hd _ Hret) in Hthrow. discriminate.
Qed.

(** X7.  What [sendFile] puts on the wire: one text frame, first, holding
    the name and the size of the file, then binary frames only; every
    binary frame holds at least one byte and at most [CHUNK_SIZE] bytes,
    frame [k] holding [min(CHUNK_SIZE, size - k * CHUNK_SIZE)] of them, so
    that all frames but the last are full. *)
Theorem sendFile_wire_format (file : File) (c : Channel) (fuel : nat) :
  (enoughFuel file c <= fuel)%nat ->
  hd Returns (outcomes c) = Returns ->
  exists evs : list Event,
    sendFile fuel (Some file) (Some c) = Some (evs, Resolved) /\
    wire evs =
      Text {| meta_name := name file; meta_size := size file |}
      :: map Binary (frames evs) /\
    map byteLength (frames evs)
      = map (chunkLength file) (seq 0 (Z.to_nat (totalChunks file))) /\
    Forall (fun b => 1 <= byteLength b <= CHUNK_SIZE) (frames evs) /\
    (forall k : nat,
        (S k < Z.to_nat (totalChunks file))%nat ->
        chunkLength file k = CHUNK_SIZE).
Proof.
  intros Hfuel Hmeta.
  destruct (sendFile_wire file c fuel Hfuel Hmeta)
    as (evs & Hrun & Hwire & _ & _).
  exists evs. split; [exact Hrun|].
  assert (Hfr : frames evs
                = chunksFrom file 0 (Z.to_nat (totalChunks file))).
  { unfold frames. rewrite Hwire. unfold transmission.
    cbn [binaryFrames]. apply binaryFrames_Binary. }
  destruct (chunksFrom_lengths file 0 (Z.to_nat (totalChunks file)))
    as (Hlen & Hall); [lia|].
  rewrite Hfr. split; [exact Hwire|]. split; [exact Hlen|].
  split; [exact Hall|].
  intros k Hk. unfold chunkLength.
  assert (Hnext : (S k < Z.to_nat (totalChunks file))%nat) by exact Hk.
  apply more_chunks in Hnext. apply Z.ltb_lt in Hnext. lia.
Qed.

(** X8.  On a channel whose [send] does not throw, the second copy of the
    script and [script.js] transmit the same messages and show the same
    percentages, whatever the buffer levels are: flow control and retry
    change when a chunk is written, not what is written. *)
Theorem both_copies_transmit_the_same
    (file : File) (c c' : Channel) (fuel : nat) :
  (enoughFuel file c <= fuel)%nat ->
  (enoughFuel file c' <= fuel)%nat ->
  hd Returns (outcomes c) = Returns ->
  neverThrows c' ->
  exists evs evs' : list Event,
    sendFile fuel (Some file) (Some c) = Some (evs, Resolved) /\
    Basic.sendFile fuel (Some file) (Some c') = Some (evs', Resolved) /\
    wire evs = wire evs' /\
    progress evs = progress evs'.
Proof.
  intros Hfuel Hfuel' Hmeta Hret.
  destruct (sendFile_wire file c fuel Hfuel Hmeta)
    as (evs & Hrun & Hwire & Hpr & _).
  destruct (basic_sendFile_wire file c' fuel Hfuel' Hret)
    as (evs' & Hrun' & Hwire').
  destruct (basic_sendFile_progress file c' fuel Hfuel' Hret)
    as (evs'' & Hrun'' & Hpr').
  rewrite Hrun' in Hrun''. injection Hrun'' as <-.
  exists evs, evs'. repeat split; congruence.
Qed.

Lemma attempts_app (a b : list Event) :
  attempts (a ++ b) = attempts a ++ attempts b.
Proof.
  induction a as [|e a IH]; [reflexivity|].
  destruct e as [buf [meta|data| | | |] ok| | | | |];
    cbn [attempts app]; rewrite IH; reflexivity.
Qed.

Lemma attempts_timeouts (n : nat) (ms : Z) :
  attempts (repeat (Timeout ms) n) = [].
Proof. induction n; [reflexivity| exact IHn]. Qed.

Lemma no_long_wait_while_polling (n : nat) :
  filter (isTimeout 200) (repeat (Timeout 50) n) = [].
Proof. induction n; [reflexivity| exact IHn]. Qed.

Lemma no_warning_while_polling (n : nat) (ms : Z) :
  filter (isLog SendFailed) (repeat (Timeout ms) n) = [].
Proof. induction n; [reflexivity| exact IHn]. Qed.

(** The trace of the send loop, attempt by attempt. *)
Lemma sendLoop_retries (file : File) (fuel : nat) :
  forall (k : nat) (r : Run),
    (k <= Z.to_nat (totalChunks file))%nat ->
    (Z.to_nat (totalChunks file) - k + length (outcomes (dc r)) < fuel)%nat ->
    exists (r' : Run) (ext : list Event),
      sendLoop fuel file (Z.of_nat k * CHUNK_SIZE) r = Some r' /\
      events r' = events r ++ ext /\
      RetriesFrom file k (attempts ext) /\
      length (filter (isTimeout 200) ext)
        = length (filter failed (attempts ext)) /\
      length (filter (isLog SendFailed) ext)
        = length (filter failed (attempts ext)).
Proof.
  induction fuel as [|fuel IH]; intros k r Hk Hfuel; [lia|].
  cbn [sendLoop].
  destruct (Z.of_nat k * CHUNK_SIZE <? size file) eqn:Hmore.
  - apply more_chunks in Hmore.
    set (r1 := waitForBuffer (suspend r)).
    destruct (waitForBuffer_spec (suspend r)) as (He1 & Ho1 & _).
    fold r1 in He1, Ho1.
    rewrite suspend_events in He1. rewrite suspend_outcomes in Ho1.
    fold (chunkAt file k).
    destruct (dc_send_cases (Binary (chunkAt file k)) r1)
      as [(Hok & _ & Ho2 & He2)|(Hok & _ & _ & Ho2 & He2)];
      destruct (dc_send (Binary (chunkAt file k)) r1) as [ok r2];
      cbn [fst snd] in *; subst ok.
    + replace (Z.of_nat k * CHUNK_SIZE + CHUNK_SIZE)
        with (Z.of_nat (S k) * CHUNK_SIZE) by lia.
      destruct (IH (S k)
                  (emit (Progress (sendPct (Z.of_nat (S k) * CHUNK_SIZE)
                                           (size file))) r2))
        as (r' & ext & Hrun & Hev & Hre & Hw & Hl).
      * lia.
      * cbn [emit dc]. rewrite Ho2, Ho1.
        pose proof (length_tl_le (outcomes (dc r))). lia.
      * exists r'. eexists. split; [exact Hrun|]. split.
        { rewrite Hev. cbn [emit events]. rewrite He2, He1.
          rewrite <- !app_assoc. reflexivity. }
        rewrite !attempts_app, !filter_app, attempts_timeouts,
          no_long_wait_while_polling, no_warning_while_polling.
        cbn [attempts app filter isTimeout isLog failed snd negb length].
        split; [|split; assumption].
        apply retries_sent; assumption.
    + destruct (IH k (suspend (emit (Timeout 200) (emit (Log SendFailed) r2))))
        as (r' & ext & Hrun & Hev & Hre & Hw & Hl).
      * exact Hk.
      * rewrite suspend_outcomes. cbn [emit dc]. rewrite Ho1 in Ho2. lia.
      * exists r'. eexists. split; [exact Hrun|]. split.
        { rewrite Hev, suspend_events. cbn [emit events].
          rewrite He2, He1. rewrite <- !app_assoc. reflexivity. }
        rewrite !attempts_app, !filter_app, attempts_timeouts,
          no_long_wait_while_polling, no_warning_while_polling.
        cbn [attempts app filter isTimeout isLog failed snd negb length
             Z.eqb Pos.eqb].
        split; [|split; congruence].
        apply retries_again; assumption.
  - assert (Hdone : ~ (k < Z.to_nat (totalChunks file))%nat).
    { intros Hlt. apply more_chunks in Hlt. congruence. }
    exists r, []. rewrite app_nil_r.
    replace k with (Z.to_nat (totalChunks file)) by lia.
    repeat split. constructor.
Qed.

(** A sender that stands before the last chunk has an attempt ahead. *)
Lemma RetriesFrom_next (file : File) (k : nat) (l : list (bytes * bool)) :
  RetriesFrom file k l ->
  (k < Z.to_nat (totalChunks file))%nat ->
  exists (ok : bool) (l' : list (bytes * bool)),
    l = (chunkAt file k, ok) :: l'.
Proof.
  intros Hre Hk. destruct Hre as [|k l _ _|k l _ _]; [lia| |];
    eexists; eexists; reflexivity.
Qed.

Lemma RetriesFrom_failed_is_retried (file : File) (k : nat)
    (l : list (bytes * bool)) :
  RetriesFrom file k l ->
  forall (pre post : list (bytes * bool)) (b : bytes),
    l = pre ++ (b, false) :: post ->
    exists (ok : bool) (post' : list (bytes * bool)),
      post = (b, ok) :: post'.
Proof.
  induction 1 as [|k l Hk Hre IH|k l Hk Hre IH]; intros pre post b Heq.
  - destruct pre; discriminate.
  - destruct pre as [|a pre]; cbn [app] in Heq; [discriminate|].
    injection Heq as _ Heq. exact (IH pre post b Heq).
  - destruct pre as [|a pre]; cbn [app] in Heq.
    + injection Heq as <- <-. exact (RetriesFrom_next file k l Hre Hk).
    + injection Heq as _ Heq. exact (IH pre post b Heq).
Qed.

Lemma RetriesFrom_length (file : File) (k : nat) (l : list (bytes * bool)) :
  RetriesFrom file k l ->
  (length l
   = Z.to_nat (totalChunks file) - k + length (filter failed l))%nat /\
  map fst (filter snd l)
    = chunksFrom file k (Z.to_nat (totalChunks file) - k).
Proof.
  induction 1 as [|k l Hk Hre [IHl IHs]|k l Hk Hre [IHl IHs]].
  - rewrite Nat.sub_diag. split; reflexivity.
  - cbn [filter failed snd negb length map fst]. split; [lia|].
    rewrite IHs.
    replace (Z.to_nat (totalChunks file) - k)%nat
      with (S (Z.to_nat (totalChunks file) - S k)) by lia.
    reflexivity.
  - cbn [filter failed snd negb length map fst]. split; [lia|exact IHs].
Qed.

(** X9.  [sendFile] of [script.js] retries a chunk whose write threw: the
    next binary frame handed to [dc.send] holds the same bytes, after a
    warning and a wait of 200 ms.  With [f] failed writes in all, the
    sender makes [totalChunks + f] attempts, prints [f] warnings and waits
    200 ms [f] times, and the attempts that returned carry the chunks of
    the file in order; it gives up on no chunk. *)
Theorem failed_write_is_retried (file : File) (c : Channel) (fuel : nat) :
  (enoughFuel file c <= fuel)%nat ->
  hd Returns (outcomes c) = Returns ->
  exists evs : list Event,
    sendFile fuel (Some file) (Some c) = Some (evs, Resolved) /\
    (forall (pre post : list (bytes * bool)) (b : bytes),
        attempts evs = pre ++ (b, false) :: post ->
        exists (ok : bool) (post' : list (bytes * bool)),
          post = (b, ok) :: post') /\
    map fst (filter snd (attempts evs))
      = chunksFrom file 0 (Z.to_nat (totalChunks file)) /\
    (length (attempts evs)
     = Z.to_nat (totalChunks file)
       + length (filter failed (attempts evs)))%nat /\
    length (filter (isLog SendFailed) evs)
      = length (filter failed (attempts evs)) /\
    length (filter (isTimeout 200) evs)
      = length (filter failed (attempts evs)).
Proof.
  intros Hfuel Hmeta. unfold enoughFuel in Hfuel. unfold sendFile.
  set (r0 := emit (Log (Sending (name file) (size file)))
                  {| dc := c; events := [] |}).
  set (meta := Text {| meta_name := name file; meta_size := size file |}).
  destruct (dc_send_cases meta r0)
    as [(Hok & _ & Ho & He)|(_ & Hthrow & _)];
    [|cbn [r0 emit dc] in Hthrow; congruence].
  destruct (dc_send meta r0) as [ok r1]; cbn [fst snd] in *; subst ok.
  destruct (sendLoop_retries file fuel 0 r1)
    as (r' & ext & Hrun & Hev & Hre & Hw & Hl).
  - lia.
  - rewrite Ho. cbn [r0 emit dc].
    pose proof (length_tl_le (outcomes c)). lia.
  - cbn [Z.of_nat Z.mul] in Hrun. rewrite Hrun.
    eexists. split; [reflexivity|].
    cbn [emit events]. rewrite Hev, He.
    assert (Hatt : attempts (((events r0
                     ++ [Write (bufferedAmount (dc r0)) meta true])
                     ++ ext) ++ [Log FileSent]) = attempts ext).
    { rewrite !attempts_app.
      change (attempts (events r0)) with (@nil (bytes * bool)).
      change (attempts [Write (bufferedAmount (dc r0)) meta true])
        with (@nil (bytes * bool)).
      change (attempts [Log FileSent]) with (@nil (bytes * bool)).
      cbn [app]. apply app_nil_r. }
    rewrite Hatt. rewrite !filter_app.
    change (filter (isLog SendFailed) (events r0)) with (@nil Event).
    change (filter (isTimeout 200) (events r0)) with (@nil Event).
    cbn [filter isLog isTimeout app]. rewrite !app_nil_r.
    destruct (RetriesFrom_length file 0 _ Hre) as (Hlen & Hsent).
    rewrite Nat.sub_0_r in Hlen, Hsent.
    split; [exact (RetriesFrom_failed_is_retried file 0 _ Hre)|].
    split; [exact Hsent|]. split; [exact Hlen|]. split; assumption.
Qed.

Lemma dc_send_returns (m : Message) (r : Run) (rest : list Outcome) :
  outcomes (dc r) = Returns :: rest ->
  dc_send m r
  = (true,
     {| dc := {| bufferedAmount := bufferedAmount (dc r);
                 schedule := schedule (dc r); outcomes := rest |};
        events := events r ++ [Write (bufferedAmount (dc r)) m true] |}).
Proof. intros Ho. unfold dc_send. rewrite Ho. reflexivity. Qed.

Lemma dc_send_throws (m : Message) (r : Run) (rest : list Outcome) :
  outcomes (dc r) = Throws :: rest ->
  dc_send m r
  = (false,
     {| dc := {| bufferedAmount := bufferedAmount (dc r);
                 schedule := schedule (dc r); outcomes := rest |};
        events := events r ++ [Write (bufferedAmount (dc r)) m false] |}).
Proof. intros Ho. unfold dc_send. rewrite Ho. reflexivity. Qed.

(** The send loop of the second copy, on a channel whose [send] returns
    [j] times and then throws. *)
Lemma basic_sendLoop_abort (file : File) (j : nat) :
  forall (fuel k : nat) (r : Run) (rest : list Outcome),
    (k + j < Z.to_nat (totalChunks file))%nat ->
    (j < fuel)%nat ->
    outcomes (dc r) = repeat Returns j ++ Throws :: rest ->
    exists (r' : Run) (ext : list Event),
      Basic.sendLoop fuel file (Z.of_nat k * CHUNK_SIZE) r
        = Some (r', Rejected) /\
      events r' = events r ++ ext /\
      wire ext = map Binary (chunksFrom file k j) /\
      attempts ext
        = map (fun b => (b, true)) (chunksFrom file k j)
          ++ [(chunkAt file (k + j), false)] /\
      filter (isLog FileSent) ext = [].
Proof.
  induction j as [|j IH]; intros fuel k r rest Hk Hfuel Ho;
    (destruct fuel as [|fuel]; [lia|]); cbn [Basic.sendLoop];
    (assert (Hmore : (Z.of_nat k * CHUNK_SIZE <? size file) = true)
      by (apply more_chunks; lia));
    rewrite Hmore; fold (chunkAt file k); cbn [repeat app] in Ho.
  - rewrite (dc_send_throws _ (suspend r) rest)
      by (rewrite suspend_outcomes; exact Ho).
    eexists. eexists. split; [reflexivity|]. cbn [events].
    rewrite suspend_events. split; [reflexivity|].
    rewrite Nat.add_0_r. repeat split.
  - rewrite (dc_send_returns _ (suspend r) (repeat Returns j ++ Throws :: rest))
      by (rewrite suspend_outcomes; exact Ho).
    replace (Z.of_nat k * CHUNK_SIZE + CHUNK_SIZE)
      with (Z.of_nat (S k) * CHUNK_SIZE) by lia.
    match goal with
    | |- context [Basic.sendLoop fuel file _ ?rr] =>
        destruct (IH fuel (S k) rr rest)
          as (r' & ext & Hrun & Hev & Hw & Ha & Hl)
    end.
    + lia.
    + lia.
    + reflexivity.
    + exists r'. eexists. split; [exact Hrun|]. split.
      { rewrite Hev. cbn [emit events]. rewrite suspend_events.
        rewrite <- !app_assoc. reflexivity. }
      rewrite !wire_app, !attempts_app, !filter_app, Hw, Ha, Hl.
      replace (S k + j)%nat with (k + S j)%nat by lia.
      repeat split.
Qed.

(** X10.  The second copy of the script does not retry: when a chunk write
    throws, after [j] chunks have been written, its [sendFile] rejects
    there and then.  The wire holds the metadata frame and the first [j]
    chunks only, the chunk whose write threw is not handed to [dc.send]
    again, and no success is logged.  On the same channel [sendFile] of
    [script.js] carries on and delivers the whole file. *)
Theorem second_copy_stops_at_the_first_throw
    (file : File) (c : Channel) (fuel j : nat) (rest : list Outcome) :
  (enoughFuel file c <= fuel)%nat ->
  (j < Z.to_nat (totalChunks file))%nat ->
  outcomes c = Returns :: repeat Returns j ++ Throws :: rest ->
  exists evs evs' : list Event,
    Basic.sendFile fuel (Some file) (Some c) = Some (evs, Rejected) /\
    wire evs =
      Text {| meta_name := name file; meta_size := size file |}
      :: map Binary (chunksFrom file 0 j) /\
    attempts evs
      = map (fun b => (b, true)) (chunksFrom file 0 j)
        ++ [(chunkAt file j, false)] /\
    filter (isLog FileSent) evs = [] /\
    sendFile fuel (Some file) (Some c) = Some (evs', Resolved) /\
    wire evs' = transmission file.
Proof.
  intros Hfuel Hj Ho.
  destruct (sendFile_wire file c fuel Hfuel) as (evs' & Hrun' & Hwire' & _).
  { rewrite Ho. reflexivity. }
  unfold enoughFuel in Hfuel. unfold Basic.sendFile.
  set (r0 := emit (Log (Sending (name file) (size file)))
                  {| dc := c; events := [] |}).
  set (meta := Text {| meta_name := name file; meta_size := size file |}).
  rewrite (dc_send_returns meta r0 (repeat Returns j ++ Throws :: rest))
    by exact Ho.
  match goal with
  | |- context [Basic.sendLoop fuel file 0 ?rr] =>
      destruct (basic_sendLoop_abort file j fuel 0 rr rest)
        as (r' & ext & Hrun & Hev & Hw & Ha & Hl)
  end.
  - lia.
  - lia.
  - reflexivity.
  - cbn [Z.of_nat Z.mul] in Hrun. rewrite Hrun.
    exists (events r'), evs'. split; [reflexivity|].
    rewrite Hev. cbn [events].
    rewrite !wire_app, !attempts_app, !filter_app, Hw, Ha, Hl.
    repeat split; assumption.
Qed.

(* ===================================================================== *)
(** ** Receive path: any chunking, several transfers, the two copies *)
(* ===================================================================== *)

(** Binary messages that stay below the declared size, followed by one
    that reaches it. *)
Lemma receive_until_complete (init : list bytes) :
  forall (rc : ReceivedChunks) (declared : Z) (final : bytes),
    expectedSize rc = Some declared ->
    totalLength (chunks rc) + totalLength init < declared ->
    declared <= totalLength (chunks rc) + totalLength init + byteLength final ->
    downloads (snd (receive rc (map Binary (init ++ [final]))))
      = [(concat (chunks rc) ++ concat init ++ final,
          downloadName (expectedName rc))] /\
    chunks (fst (receive rc (map Binary (init ++ [final]))))
      = chunks rc ++ init ++ [final].
Proof.
  induction init as [|a init IH]; intros rc declared final Hsize Hlow Hhigh;
    cbn [app map receive totalLength concat] in *.
  - pose proof (handleIncomingChunk_downloads rc final) as Hd.
    pose proof (handleIncomingChunk_binary_state rc final) as Hst.
    destruct (handleIncomingChunk rc (Binary final)) as [rc1 evs1].
    cbn [fst snd] in *. rewrite app_nil_r, Hd, Hsize. cbn [geb].
    destruct (Z.leb_spec declared (totalLength (chunks rc) + byteLength final));
      [|lia].
    rewrite Hst. split; reflexivity.
  - pose proof (handleIncomingChunk_downloads rc a) as Hd.
    pose proof (handleIncomingChunk_binary_state rc a) as Hst.
    destruct (handleIncomingChunk rc (Binary a)) as [rc1 evs1].
    cbn [fst snd] in *.
    pose proof (totalLength_nonneg init) as Hinit.
    rewrite Hsize in Hd. cbn [geb] in Hd.
    destruct (Z.leb_spec declared (totalLength (chunks rc) + byteLength a));
      [lia|].
    destruct (IH rc1 declared final) as (Hdl & Hch).
    + rewrite Hst. exact Hsize.
    + rewrite Hst. cbn [chunks]. rewrite totalLength_app.
      cbn [totalLength]. lia.
    + rewrite Hst. cbn [chunks]. rewrite totalLength_app.
      cbn [totalLength]. lia.
    + destruct (receive rc1 (map Binary (init ++ [final]))) as [rc2 evs2].
      cbn [fst snd] in *. rewrite downloads_app, Hd, Hdl, Hch, Hst.
      cbn [chunks expectedName app]. rewrite concat_app.
      cbn [concat]. rewrite app_nil_r, <- !app_assoc. split; reflexivity.
Qed.

(** Binary messages that stay below the declared size are stored and
    nothing else happens. *)
Lemma receive_below (l : list bytes) :
  forall (rc : ReceivedChunks) (declared : Z),
    expectedSize rc = Some declared ->
    totalLength (chunks rc) + totalLength l < declared ->
    downloads (snd (receive rc (map Binary l))) = [].
Proof.
  induction l as [|a l IH]; intros rc declared Hsize Hlow;
    cbn [map receive totalLength] in *; [reflexivity|].
  pose proof (handleIncomingChunk_downloads rc a) as Hd.
  pose proof (handleIncomingChunk_binary_state rc a) as Hst.
  destruct (handleIncomingChunk rc (Binary a)) as [rc1 evs1].
  cbn [fst snd] in *.
  pose proof (totalLength_nonneg l) as Hl.
  rewrite Hsize in Hd. cbn [geb] in Hd.
  destruct (Z.leb_spec declared (totalLength (chunks rc) + byteLength a));
    [lia|].
  specialize (IH rc1 declared).
  destruct (receive rc1 (map Binary l)) as [rc2 evs2]. cbn [snd] in *.
  rewrite downloads_app, Hd, IH; [reflexivity| |].
  - rewrite Hst. exact Hsize.
  - rewrite Hst. cbn [chunks]. rewrite totalLength_app.
    cbn [totalLength]. lia.
Qed.

(** X11.  The receiver does not depend on how the sender cut the file.
    After a metadata message, binary messages whose running total stays
    below the declared size produce no terminal event, and the first
    message with which the total reaches or passes the declared size
    produces exactly one; it carries every byte received, in arrival order
    and untruncated, also when that is more than the declared size, under
    the declared name (['download.bin'] for an empty name).  What the
    receiver held before the metadata message plays no part, and the
    handler of the second copy emits the same event. *)
Theorem reassembly_for_any_chunking
    (rc : ReceivedChunks) (meta : Metadata)
    (init : list bytes) (final : bytes) :
  totalLength init < meta_size meta ->
  meta_size meta <= totalLength init + byteLength final ->
  downloads
    (snd (receive rc (Text meta :: map Binary (init ++ [final]))))
    = [(concat init ++ final, downloadName (Some (meta_name meta)))] /\
  downloads (snd (receive rc (Text meta :: map Binary init))) = [] /\
  byteLength (concat init ++ final) = totalLength init + byteLength final /\
  downloads
    (snd (Basic.receive rc (Text meta :: map Binary (init ++ [final]))))
    = [(concat init ++ final, downloadName (Some (meta_name meta)))].
Proof.
  intros Hlow Hhigh.
  set (fresh := {| chunks := [];
                   expectedName := Some (meta_name meta);
                   expectedSize := Some (meta_size meta) |}).
  assert (Hrun : downloads
            (snd (receive rc (Text meta :: map Binary (init ++ [final]))))
            = [(concat init ++ final,
                downloadName (Some (meta_name meta)))]).
  { cbn [receive handleIncomingChunk]. fold fresh.
    destruct (receive_until_complete init fresh (meta_size meta) final)
      as (Hdl & _); [reflexivity|exact Hlow|exact Hhigh|].
    destruct (receive fresh (map Binary (init ++ [final]))) as [rc' evs].
    cbn [snd app downloads] in *. exact Hdl. }
  split; [exact Hrun|]. split; [|split].
  - cbn [receive handleIncomingChunk]. fold fresh.
    pose proof (receive_below init fresh (meta_size meta) eq_refl Hlow)
      as Hnone.
    destruct (receive fresh (map Binary init)) as [rc' evs].
    cbn [snd app downloads] in *. exact Hnone.
  - unfold byteLength. rewrite length_app, Nat2Z.inj_add.
    fold (byteLength (concat init)). rewrite <- totalLength_concat.
    reflexivity.
  - destruct (basic_receive (Text meta :: map Binary (init ++ [final])) rc)
      as (_ & _ & ->). exact Hrun.
Qed.

Lemma receive_transmission_any (file : File) (rc : ReceivedChunks) :
  downloads (snd (receive rc (transmission file))) = reported file.
Proof.
  unfold transmission. rewrite (receive_text rc noChunks).
  fold (transmission file). unfold reported.
  destruct (Z.ltb_spec 0 (size file)) as [Hpos|Hempty].
  - apply receive_transmission, Hpos.
  - pose proof (size_nonneg file) as Hsize.
    assert (Hzero : size file = 0) by lia.
    unfold transmission, totalChunks. rewrite Hzero. reflexivity.
Qed.

(** X12.  One data channel can carry any number of transfers one after
    the other: the metadata message of a transfer makes the receiver start
    afresh, so each file of at least one byte is reported once, byte for
    byte and under its own name, in the order sent, and an empty file is
    not reported at all.  What the receiver held at the start plays no
    part. *)
Theorem successive_transfers_are_received_in_turn
    (files : list File) (rc : ReceivedChunks) :
  downloads (snd (receive rc (concat (map transmission files))))
  = concat (map reported files).
Proof.
  revert rc. induction files as [|file files IH]; intros rc; [reflexivity|].
  cbn [map concat]. rewrite receive_app. cbn [snd].
  rewrite downloads_app, receive_transmission_any, IH. reflexivity.
Qed.

(** X13.  The receive handlers of the two copies are interchangeable: on
    every sequence of messages and from every accumulator they end with the
    same accumulator, show the same percentages and emit the same terminal
    events. *)
Theorem both_copies_receive_the_same
    (msgs : list Message) (rc : ReceivedChunks) :
  fst (Basic.receive rc msgs) = fst (receive rc msgs) /\
  progress (snd (Basic.receive rc msgs)) = progress (snd (receive rc msgs)) /\
  downloads (snd (Basic.receive rc msgs))
    = downloads (snd (receive rc msgs)) /\
  length (snd (Basic.receive rc msgs)) = length (snd (receive rc msgs)).
Proof.
  destruct (basic_receive msgs rc) as (Hrc & Hp & Hd).
  repeat (split; [assumption|]).
  revert rc Hrc Hp Hd. induction msgs as [|m msgs IH]; intros rc _ _ _;
    [reflexivity|].
  cbn [Basic.receive receive].
  pose proof (basic_handleIncomingChunk rc m) as (Hrc & _ & _).
  assert (Hlen : length (snd (Basic.handleIncomingChunk rc m))
                 = length (snd (handleIncomingChunk rc m))).
  { destruct m as [meta|data|text| |n|z]; [reflexivity| |reflexivity..].
    unfold Basic.handleIncomingChunk, handleIncomingChunk.
    cbn [chunks expectedName expectedSize].
    destruct (geb _ _); reflexivity. }
  destruct (Basic.handleIncomingChunk rc m) as [rc1 evs1].
  destruct (handleIncomingChunk rc m) as [rc2 evs2].
  cbn [fst snd] in *. subst rc2.
  destruct (basic_receive msgs rc1) as (H1 & H2 & H3).
  specialize (IH rc1 H1 H2 H3).
  destruct (Basic.receive rc1 msgs) as [rc3 evs3].
  destruct (receive rc1 msgs) as [rc4 evs4].
  cbn [fst snd] in *. rewrite !length_app. lia.
Qed.

(* ===================================================================== *)
(** ** Instances *)
(* ===================================================================== *)

Section TransferExamples.

Lemma sendFile_wire_format_witness :
  (enoughFuel scenario unsteady <= 8)%nat /\
  hd Returns (outcomes unsteady) = Returns /\
  exists evs : list Event,
    sendFile 8 (Some scenario) (Some unsteady) = Some (evs, Resolved) /\
    map byteLength (frames evs) = [16384; 16384; 7232].
Proof.
  assert (H1 : (enoughFuel scenario unsteady <= 8)%nat) by (vm_compute; lia).
  assert (H2 : hd Returns (outcomes unsteady) = Returns) by reflexivity.
  repeat (split; [assumption|]).
  destruct (sendFile_wire_format scenario unsteady 8 H1 H2)
    as (evs & Hrun & _ & Hlen & _).
  exists evs. split; [exact Hrun|]. rewrite Hlen. vm_compute. reflexivity.
Defined.

Lemma both_copies_transmit_the_same_witness :
  (enoughFuel note unsteady <= 6)%nat /\
  (enoughFuel note congested <= 6)%nat /\
  hd Returns (outcomes unsteady) = Returns /\
  neverThrows congested /\
  exists evs evs' : list Event,
    sendFile 6 (Some note) (Some unsteady) = Some (evs, Resolved) /\
    Basic.sendFile 6 (Some note) (Some congested) = Some (evs', Resolved) /\
    wire evs = wire evs' /\
    progress evs = progress evs'.
Proof.
  assert (H1 : (enoughFuel note unsteady <= 6)%nat) by (vm_compute; lia).
  assert (H2 : (enoughFuel note congested <= 6)%nat) by (vm_compute; lia).
  assert (H3 : hd Returns (outcomes unsteady) = Returns) by reflexivity.
  assert (H4 : neverThrows congested) by constructor.
  repeat (split; [assumption|]).
  exact (both_copies_transmit_the_same note unsteady congested 6 H1 H2 H3 H4).
Defined.

Lemma failed_write_is_retried_witness :
  (enoughFuel note unsteady <= 6)%nat /\
  hd Returns (outcomes unsteady) = Returns /\
  exists evs : list Event,
    sendFile 6 (Some note) (Some unsteady) = Some (evs, Resolved) /\
    attempts evs = [([x68; x69; x0a], false); ([x68; x69; x0a], true)] /\
    length (filter (isTimeout 200) evs) = 1%nat.
Proof.
  assert (H1 : (enoughFuel note unsteady <= 6)%nat) by (vm_compute; lia).
  assert (H2 : hd Returns (outcomes unsteady) = Returns) by reflexivity.
  repeat (split; [assumption|]).
  destruct (failed_write_is_retried note unsteady 6 H1 H2)
    as (evs & Hrun & _ & _ & _ & _ & Hwaits).
  exists evs. split; [exact Hrun|].
  assert (Hevs : Some (evs, Resolved)
                 = sendFile 6 (Some note) (Some unsteady))
    by (symmetry; exact Hrun).
  vm_compute in Hevs. injection Hevs as Hevs.
  split; [rewrite Hevs; reflexivity|].
  rewrite Hwaits, Hevs. reflexivity.
Defined.

Lemma second_copy_stops_at_the_first_throw_witness :
  (enoughFuel scenario faulty <= 8)%nat /\
  (1 < Z.to_nat (totalChunks scenario))%nat /\
  outcomes faulty = Returns :: repeat Returns 1 ++ Throws :: [Returns] /\
  exists evs evs' : list Event,
    Basic.sendFile 8 (Some scenario) (Some faulty) = Some (evs, Rejected) /\
    map byteLength (frames evs) = [16384] /\
    sendFile 8 (Some scenario) (Some faulty) = Some (evs', Resolved) /\
    map byteLength (frames evs') = [16384; 16384; 7232].
Proof.
  assert (H1 : (enoughFuel scenario faulty <= 8)%nat) by (vm_compute; lia).
  assert (H2 : (1 < Z.to_nat (totalChunks scenario))%nat)
    by (vm_compute; lia).
  assert (H3 : outcomes faulty
               = Returns :: repeat Returns 1 ++ Throws :: [Returns])
    by reflexivity.
  repeat (split; [assumption|]).
  destruct (second_copy_stops_at_the_first_throw scenario faulty 8 1
              [Returns] H1 H2 H3)
    as (evs & evs' & Hrun & Hwire & _ & _ & Hrun' & Hwire').
  exists evs, evs'. split; [exact Hrun|]. split; [|split; [exact Hrun'|]].
  - unfold frames. rewrite Hwire. vm_compute. reflexivity.
  - unfold frames. rewrite Hwire'. vm_compute. reflexivity.
Defined.

Lemma reassembly_for_any_chunking_witness :
  totalLength [[x01]; [x02; x03]] < 4 /\
  4 <= totalLength [[x01]; [x02; x03]] + byteLength [x04; x05] /\
  downloads
    (snd (receive noChunks
            (Text {| meta_name := ""; meta_size := 4 |}
             :: map Binary ([[x01]; [x02; x03]] ++ [[x04; x05]]))))
    = [([x01; x02; x03; x04; x05], "download.bin")].
Proof.
  assert (H1 : totalLength [[x01]; [x02; x03]] < 4) by reflexivity.
  assert (H2 : 4 <= totalLength [[x01]; [x02; x03]] + byteLength [x04; x05])
    by (vm_compute; discriminate).
  repeat (split; [assumption|]).
  exact (proj1 (reassembly_for_any_chunking noChunks
                  {| meta_name := ""; meta_size := 4 |}
                  [[x01]; [x02; x03]] [x04; x05] H1 H2)).
Defined.

End TransferExamples.

Section SessionWitnesses.

Import Signaling.
Import Session.

Lemma rejection_sends_nothing_witness :
  snd (handleSignal sessionJoined offering) = Rejected /\
  ws (fst (handleSignal sessionJoined offering)) = ws offering.
Proof.
  assert (H1 : snd (handleSignal sessionJoined offering) = Rejected)
    by reflexivity.
  split; [exact H1|].
  exact (proj1 (rejection_sends_nothing sessionJoined offering H1)).
Defined.

Lemma unactionable_envelope_is_ignored_witness :
  actionable {| msg_type := Some "ping"; msg_sdp := Some "v=0";
                msg_candidate := None; msg_sessionId := Some "k3x9q2a" |}
    = false /\
  handleSignal {| msg_type := Some "ping"; msg_sdp := Some "v=0";
                  msg_candidate := None; msg_sessionId := Some "k3x9q2a" |}
               offering
    = (offering, Resolved).
Proof.
  assert (H1 : actionable
                 {| msg_type := Some "ping"; msg_sdp := Some "v=0";
                    msg_candidate := None;
                    msg_sessionId := Some "k3x9q2a" |} = false)
    by reflexivity.
  split; [exact H1|].
  exact (unactionable_envelope_is_ignored _ offering H1).
Defined.

Lemma offer_is_ignored_once_a_data_channel_exists_witness :
  msg_type (lastEnvelope offering) = Some "offer" /\
  dc offering = true /\
  sameButConsole (fst (handleSignal (lastEnvelope offering) offering))
                 offering.
Proof.
  assert (H1 : msg_type (lastEnvelope offering) = Some "offer")
    by reflexivity.
  assert (H2 : dc offering = true) by reflexivity.
  repeat (split; [assumption|]).
  destruct (offer_is_ignored_once_a_data_channel_exists
              (lastEnvelope offering) offering H1 H2) as (_ & Hsame & _).
  exact Hsame.
Defined.

Lemma ice_candidate_failure_is_not_fatal_witness :
  msg_type {| msg_type := Some "ice-candidate"; msg_sdp := None;
              msg_candidate := Some "candidate:1 1 udp 1 10.0.0.1 9 typ host";
              msg_sessionId := Some "k3x9q2a" |} = Some "ice-candidate" /\
  snd (handleSignal
         {| msg_type := Some "ice-candidate"; msg_sdp := None;
            msg_candidate := Some "candidate:1 1 udp 1 10.0.0.1 9 typ host";
            msg_sessionId := Some "k3x9q2a" |} offering) = Resolved.
Proof.
  split; [reflexivity|].
  destruct (ice_candidate_failure_is_not_fatal
              {| msg_type := Some "ice-candidate"; msg_sdp := None;
                 msg_candidate :=
                   Some "candidate:1 1 udp 1 10.0.0.1 9 typ host";
                 msg_sessionId := Some "k3x9q2a" |}
              "candidate:1 1 udp 1 10.0.0.1 9 typ host"
              offering offering eq_refl eq_refl) as (_ & Hres & _).
  exact Hres.
Defined.


End SessionWitnesses.

(* ===================================================================== *)
(** ** [formatBytes] on whole numbers of bytes *)
(* ===================================================================== *)

Section FormatProperties.

Import Format.

Lemma digits2_pos_bounds (p : positive) :
  2 ^ (Z.pos (digits2_pos p) - 1) <= Z.pos p < 2 ^ Z.pos (digits2_pos p).
Proof.
  induction p as [p IH|p IH|]; cbn [digits2_pos].
  - rewrite Pos2Z.inj_succ. change (Z.pos p~1) with (2 * Z.pos p + 1).
    replace (Z.succ (Z.pos (digits2_pos p)) - 1) with (Z.succ (Z.pos (digits2_pos p) - 1)) by lia.
    rewrite !Z.pow_succ_r by lia.
    set (a := 2 ^ (Z.pos (digits2_pos p) - 1)) in *.
    set (b := 2 ^ Z.pos (digits2_pos p)) in *. clearbody a b. lia.
  - rewrite Pos2Z.inj_succ. change (Z.pos p~0) with (2 * Z.pos p).
    replace (Z.succ (Z.pos (digits2_pos p)) - 1) with (Z.succ (Z.pos (digits2_pos p) - 1)) by lia.
    rewrite !Z.pow_succ_r by lia.
    set (a := 2 ^ (Z.pos (digits2_pos p) - 1)) in *.
    set (b := 2 ^ Z.pos (digits2_pos p)) in *. clearbody a b. lia.
  - cbn. lia.
Qed.

Lemma iter_xO_digits (p k : positive) :
  digits2_pos (Pos.iter xO p k) = (digits2_pos p + k)%positive.
Proof.
  induction k as [|k IH] using Pos.peano_ind.
  - cbn. lia.
  - rewrite Pos.iter_succ. cbn [digits2_pos]. rewrite IH. lia.
Qed.

Lemma iter_xO_value (p k : positive) :
  Z.pos (Pos.iter xO p k) = Z.pos p * 2 ^ Z.pos k.
Proof.
  induction k as [|k IH] using Pos.peano_ind.
  - cbn. lia.
  - rewrite Pos.iter_succ.
    change (Z.pos (Pos.iter xO p k)~0) with (2 * Z.pos (Pos.iter xO p k)).
    rewrite IH, Pos2Z.inj_succ, Z.pow_succ_r by lia. lia.
Qed.

Lemma mantissa_digits (p : positive) :
  Z.pos p < 2 ^ 53 -> digits2_pos (mantissa p) = 53%positive.
Proof.
  intros Hp. pose proof (digits2_pos_bounds p) as [Hlo _].
  assert (Hd : Z.pos (digits2_pos p) <= 53).
  { destruct (Z_le_gt_dec (Z.pos (digits2_pos p)) 53) as [|Hgt]; [assumption|].
    assert (2 ^ 53 <= 2 ^ (Z.pos (digits2_pos p) - 1)) by (apply Z.pow_le_mono_r; lia).
    lia. }
  unfold mantissa. destruct (53 - Z.pos (digits2_pos p)) as [|k|k] eqn:Hk; try lia.
  rewrite iter_xO_digits. lia.
Qed.

Lemma mantissa_value (p : positive) :
  Z.pos p < 2 ^ 53 -> Z.pos (mantissa p) = Z.pos p * 2 ^ (- exponent p) /\ -52 <= exponent p <= 0.
Proof.
  intros Hp. pose proof (digits2_pos_bounds p) as [Hlo _].
  assert (Hd : Z.pos (digits2_pos p) <= 53).
  { destruct (Z_le_gt_dec (Z.pos (digits2_pos p)) 53) as [|Hgt]; [assumption|].
    assert (2 ^ 53 <= 2 ^ (Z.pos (digits2_pos p) - 1)) by (apply Z.pow_le_mono_r; lia).
    lia. }
  unfold mantissa, exponent. split; [|lia].
  destruct (53 - Z.pos (digits2_pos p)) as [|k|k] eqn:Hk; try lia.
  - replace (- (Z.pos (digits2_pos p) - 53)) with 0 by lia. cbn; lia.
  - rewrite iter_xO_value. f_equal. f_equal. lia.
Qed.

(* shr_fexp is the identity on a canonical mantissa *)
Lemma shr_fexp_canonical (M : positive) (e : Z) :
  digits2_pos M = 53%positive -> -1074 <= e ->
  shr_fexp 53 1024 (Z.pos M) e loc_Exact = ({| shr_m := Z.pos M; shr_r := false; shr_s := false |}, e).
Proof.
  intros HM He. unfold shr_fexp, Zdigits2, fexp, emin. rewrite HM.
  replace (Z.max (53 + e - 53) (3 - 1024 - 53) - e) with 0 by lia.
  reflexivity.
Qed.

Lemma binary_round_aux_canonical (M : positive) (e : Z) :
  digits2_pos M = 53%positive -> -1074 <= e <= 971 ->
  binary_round_aux 53 1024 false (Z.pos M) e loc_Exact = S754_finite false M e.
Proof.
  intros HM He. unfold binary_round_aux.
  rewrite shr_fexp_canonical by (try assumption; lia).
  cbn [shr_m loc_of_shr_record round_nearest_even shr_r shr_s].
  rewrite shr_fexp_canonical by (try assumption; lia).
  cbn [shr_m]. destruct (Z.leb_spec e (1024 - 53)); [reflexivity|lia].
Qed.

Lemma of_Z_pos (p : positive) :
  Z.pos p < 2 ^ 53 -> of_Z (Z.pos p) = S754_finite false (mantissa p) (exponent p).
Proof.
  intros Hp. pose proof (mantissa_digits p Hp) as HM.
  pose proof (mantissa_value p Hp) as [_ He].
  unfold of_Z, prec, emax, binary_normalize, binary_round, shl_align, fexp, emin.
  unfold mantissa, exponent in *.
  replace (Z.max (Z.pos (digits2_pos p) + 0 - 53) (3 - 1024 - 53) - 0)
    with (- (53 - Z.pos (digits2_pos p))) by lia.
  replace (Z.max (Z.pos (digits2_pos p) + 0 - 53) (3 - 1024 - 53))
    with (Z.pos (digits2_pos p) - 53) by lia.
  destruct (53 - Z.pos (digits2_pos p)) as [|k|k] eqn:Hk; try lia; cbn [Z.opp].
  - replace (Z.pos (digits2_pos p) - 53) with 0 in * by lia.
    apply binary_round_aux_canonical; [assumption|lia].
  - apply binary_round_aux_canonical; [assumption|lia].
Qed.

Lemma of_Z_1024 : of_Z 1024 = S754_finite false 4503599627370496 (-42).
Proof. vm_compute. reflexivity. Qed.

Lemma div_eucl_shift (M : positive) :
  Z.div_eucl (Z.shiftl (Z.pos M) 53) 4503599627370496 = (Z.pos M~0, 0).
Proof.
  rewrite Z.shiftl_mul_pow2 by lia.
  pose proof (Z_div_mod (Z.pos M * 2 ^ 53) 4503599627370496 eq_refl) as Hdm.
  destruct (Z.div_eucl (Z.pos M * 2 ^ 53) 4503599627370496) as [q r].
  change (2 ^ 53) with 9007199254740992 in Hdm.
  change (Z.pos M~0) with (2 * Z.pos M).
  destruct Hdm as [Heq Hr]. f_equal; lia.
Qed.

Lemma div_1024 (M : positive) (e : Z) :
  digits2_pos M = 53%positive -> -1063 <= e <= 981 ->
  div (S754_finite false M e) (of_Z 1024) = S754_finite false M (e - 10).
Proof.
  intros HM He. rewrite of_Z_1024.
  unfold div, prec, emax, SFdiv, SFdiv_core_binary, Zdigits2, fexp, emin.
  rewrite HM. cbn [digits2_pos Pos.succ].
  replace (Z.min (Z.max (53 + e - (53 + -42) - 53) (3 - 1024 - 53)) (e - -42))
    with (e - 11) by lia.
  replace (e - -42 - (e - 11)) with 53 by lia.
  rewrite div_eucl_shift.
  change (new_location 4503599627370496 0) with loc_Exact.
  cbn [xorb].
  unfold binary_round_aux.
  assert (Hshr : shr_fexp 53 1024 (Z.pos M~0) (e - 11) loc_Exact
                 = ({| shr_m := Z.pos M; shr_r := false; shr_s := false |}, e - 10)).
  { unfold shr_fexp, Zdigits2, fexp, emin. cbn [digits2_pos]. rewrite HM.
    replace (Z.max (Z.pos (Pos.succ 53) + (e - 11) - 53) (3 - 1024 - 53) - (e - 11))
      with 1 by lia.
    cbn [shr shr_record_of_loc iter_pos shr_1 orb]. f_equal. lia. }
  rewrite Hshr. cbn [shr_m loc_of_shr_record round_nearest_even].
  rewrite shr_fexp_canonical by (try assumption; lia).
  cbn [shr_m]. destruct (Z.leb_spec (e - 10) (1024 - 53)); [reflexivity|lia].
Qed.

Lemma geq_1024 (M : positive) (e : Z) :
  digits2_pos M = 53%positive ->
  geq (S754_finite false M e) (of_Z 1024) = (-42 <=? e).
Proof.
  intros HM. rewrite of_Z_1024. unfold geq, SFcompare.
  destruct (Z.compare_spec e (-42)) as [->|Hlt|Hgt].
  - pose proof (digits2_pos_bounds M) as [Hlo _]. rewrite HM in Hlo.
    change (2 ^ (53 - 1)) with 4503599627370496 in Hlo.
    rewrite Pos.compare_cont_spec. cbn [Pos.switch_Eq].
    destruct (Pos.compare_spec M 4503599627370496) as [|Hc|]; try reflexivity.
    apply Pos2Z.pos_lt_pos in Hc. lia.
  - destruct (Z.leb_spec (-42) e); [lia|reflexivity].
  - destruct (Z.leb_spec (-42) e); [reflexivity|lia].
Qed.

Lemma exponent_threshold (p : positive) (k : Z) :
  0 <= k ->
  (-42 <=? exponent p - k) = (2 ^ (10 + k) <=? Z.pos p).
Proof.
  intros Hk. pose proof (digits2_pos_bounds p) as [Hlo Hhi]. unfold exponent.
  destruct (Z.leb_spec (-42) (Z.pos (digits2_pos p) - 53 - k)) as [Hge|Hlt];
    destruct (Z.leb_spec (2 ^ (10 + k)) (Z.pos p)) as [Hge'|Hlt']; try reflexivity.
  - assert (Hpow : 2 ^ (10 + k) <= 2 ^ (Z.pos (digits2_pos p) - 1))
      by (apply Z.pow_le_mono_r; lia).
    exfalso. apply (Z.lt_irrefl (Z.pos p)).
    eapply Z.lt_le_trans; [exact Hlt'|].
    eapply Z.le_trans; [exact Hpow|exact Hlo].
  - assert (Hpow : 2 ^ Z.pos (digits2_pos p) <= 2 ^ (10 + k))
      by (apply Z.pow_le_mono_r; lia).
    exfalso. apply (Z.lt_irrefl (Z.pos p)).
    eapply Z.lt_le_trans; [exact Hhi|].
    eapply Z.le_trans; [exact Hpow|exact Hge'].
Qed.

Lemma scale_of_size (p : positive) :
  Z.pos p < 2 ^ 53 ->
  scale 3 (of_Z (Z.pos p)) 0
  = (S754_finite false (mantissa p)
       (exponent p - 10 * Z.of_nat (unitIndex (Z.pos p))),
     unitIndex (Z.pos p)).
Proof.
  intros Hp. rewrite (of_Z_pos p Hp).
  pose proof (mantissa_digits p Hp) as HM.
  pose proof (mantissa_value p Hp) as [_ He].
  pose proof (exponent_threshold p 0 ltac:(lia)) as H0.
  pose proof (exponent_threshold p 10 ltac:(lia)) as H1.
  pose proof (exponent_threshold p 20 ltac:(lia)) as H2.
  rewrite Z.sub_0_r in H0.
  change (2 ^ (10 + 0)) with 1024 in H0.
  change (2 ^ (10 + 10)) with (1024 ^ 2) in H1.
  change (2 ^ (10 + 20)) with (1024 ^ 3) in H2.
  unfold unitIndex. rewrite !Z.ltb_antisym, <- H0, <- H1, <- H2.
  cbn [scale]. rewrite geq_1024 by exact HM.
  change ((0 <? length units - 1)%nat) with true. cbn [andb].
  destruct (-42 <=? exponent p) eqn:E0; cbn [negb];
    [|rewrite Z.sub_0_r; reflexivity].
  rewrite div_1024 by (try exact HM; lia).
  rewrite geq_1024 by exact HM.
  change ((1 <? length units - 1)%nat) with true. cbn [andb].
  destruct (-42 <=? exponent p - 10) eqn:E1; cbn [negb]; [|reflexivity].
  rewrite div_1024 by (try exact HM; lia).
  rewrite geq_1024 by exact HM.
  change ((2 <? length units - 1)%nat) with true. cbn [andb].
  replace (exponent p - 10 - 10) with (exponent p - 20) by lia.
  destruct (-42 <=? exponent p - 20) eqn:E2; cbn [negb].
  - rewrite div_1024 by (try exact HM; lia).
    replace (exponent p - 20 - 10) with (exponent p - 10 * Z.of_nat 3)
      by (change (Z.of_nat 3) with 3; lia).
    reflexivity.
  - reflexivity.
Qed.

Lemma toFixed1_scaled (p : positive) (i : Z) :
  Z.pos p < 2 ^ 53 ->
  0 <= i ->
  exponent p - 10 * i < 0 ->
  toFixed1 (S754_finite false (mantissa p) (exponent p - 10 * i))
  = Some (tenths ((20 * Z.pos p + 1024 ^ i) / (2 * 1024 ^ i))).
Proof.
  intros Hp Hi Hneg. pose proof (mantissa_value p Hp) as [HM He].
  unfold toFixed1.
  destruct (Z.leb_spec 0 (exponent p - 10 * i)) as [|_]; [lia|].
  cbn [append]. do 2 f_equal.
  replace (- (exponent p - 10 * i)) with (- exponent p + 10 * i) by lia.
  rewrite Z.pow_add_r by lia.
  replace (2 ^ (10 * i)) with (1024 ^ i)
    by (change 1024 with (2 ^ 10); rewrite <- Z.pow_mul_r by lia; reflexivity).
  rewrite HM.
  set (c := 2 ^ (- exponent p)).
  assert (Hc : 0 < c) by (apply Z.pow_pos_nonneg; lia).
  replace (20 * (Z.pos p * c) + c * 1024 ^ i)
    with (c * (20 * Z.pos p + 1024 ^ i)) by ring.
  replace (2 * (c * 1024 ^ i)) with (c * (2 * 1024 ^ i)) by ring.
  assert (0 < 1024 ^ i) by (apply Z.pow_pos_nonneg; lia).
  apply Z.div_mul_cancel_l; lia.
Qed.

(** X14.  For a whole number of bytes from 0 up to 2^53, [formatBytes]
    answers the count divided by [1024^i] and rounded to one decimal, a
    half rounding up, followed by the unit of index [i]: bytes below 1024,
    KB below 1024^2, MB below 1024^3, GB from there on (no larger unit is
    ever used).  The division is carried out in binary64 without any
    rounding error, so the digits are those of the exact quotient. *)
Theorem formatBytes_of_size (z : Z) :
  0 <= z < 2 ^ 53 ->
  formatBytes (of_Z z)
  = Some (tenths ((20 * z + 1024 ^ Z.of_nat (unitIndex z))
                  / (2 * 1024 ^ Z.of_nat (unitIndex z)))
          ++ " " ++ nth (unitIndex z) units "")%string.
Proof.
  intros [Hz Hlt]. destruct z as [|p|p]; [reflexivity| |lia].
  unfold formatBytes. change (length units - 1)%nat with 3%nat.
  rewrite (scale_of_size p Hlt).
  rewrite toFixed1_scaled; [reflexivity|exact Hlt|lia|].
  pose proof (mantissa_value p Hlt) as [_ He].
  pose proof (exponent_threshold p 0 ltac:(lia)) as H0.
  rewrite Z.sub_0_r in H0. change (2 ^ (10 + 0)) with 1024 in H0.
  unfold unitIndex. rewrite Z.ltb_antisym, <- H0.
  destruct (Z.leb_spec (-42) (exponent p)); cbn [negb].
  - destruct (Z.pos p <? 1024 ^ 2);
      [cbn [Z.of_nat Pos.of_succ_nat Pos.succ]; lia|].
    destruct (Z.pos p <? 1024 ^ 3);
      cbn [Z.of_nat Pos.of_succ_nat Pos.succ]; lia.
  - cbn [Z.of_nat]. lia.
Qed.

Lemma string_append_assoc (a b c : string) :
  ((a ++ b) ++ c = a ++ b ++ c)%string.
Proof. induction a as [|ch a IH]; cbn [append]; [reflexivity|]. now rewrite IH. Qed.

(** X15.  Two edges of [formatBytes].  Below 1024 the count is shown as it
    is, with [.0] and the unit [B].  Just below a unit boundary the
    rounding to one decimal reaches 1024 while the unit stays the smaller
    one: from 1048525 to 1048575 bytes the text is [1024.0 KB], from
    1073689396 to 1073741823 bytes it is [1024.0 MB]. *)
Theorem formatBytes_edges (small kilo mega : Z) :
  0 <= small < 1024 ->
  1048525 <= kilo < 1048576 ->
  1073689396 <= mega < 1073741824 ->
  formatBytes (of_Z small) = Some (decimal small ++ ".0 B")%string /\
  formatBytes (of_Z kilo) = Some "1024.0 KB" /\
  formatBytes (of_Z mega) = Some "1024.0 MB".
Proof.
  intros Hs Hk Hm.
  rewrite !formatBytes_of_size
    by (change (2 ^ 53) with 9007199254740992; lia).
  assert (Is : unitIndex small = 0%nat).
  { unfold unitIndex. destruct (Z.ltb_spec small 1024); [reflexivity|lia]. }
  assert (Ik : unitIndex kilo = 1%nat).
  { unfold unitIndex. change (1024 ^ 2) with 1048576.
    destruct (Z.ltb_spec kilo 1024); [lia|].
    destruct (Z.ltb_spec kilo 1048576); [reflexivity|lia]. }
  assert (Im : unitIndex mega = 2%nat).
  { unfold unitIndex. change (1024 ^ 2) with 1048576.
    change (1024 ^ 3) with 1073741824.
    destruct (Z.ltb_spec mega 1024); [lia|].
    destruct (Z.ltb_spec mega 1048576); [lia|].
    destruct (Z.ltb_spec mega 1073741824); [reflexivity|lia]. }
  rewrite Is, Ik, Im.
  change (1024 ^ Z.of_nat 0) with 1. change (1024 ^ Z.of_nat 1) with 1024.
  change (1024 ^ Z.of_nat 2) with 1048576.
  replace ((20 * small + 1) / (2 * 1)) with (10 * small)
    by (Z.div_mod_to_equations; lia).
  replace ((20 * kilo + 1024) / (2 * 1024)) with 10240
    by (Z.div_mod_to_equations; lia).
  replace ((20 * mega + 1048576) / (2 * 1048576)) with 10240
    by (Z.div_mod_to_equations; lia).
  split; [|split; reflexivity].
  unfold tenths.
  replace (10 * small / 10) with small by (Z.div_mod_to_equations; lia).
  replace ((10 * small) mod 10) with 0 by (Z.div_mod_to_equations; lia).
  rewrite string_append_assoc. reflexivity.
Qed.

End FormatProperties.

(* ===================================================================== *)
(** ** Percentages at completion *)
(* ===================================================================== *)

Section CompletionPercentage.

Import Format.

Lemma div_eucl_self (M : positive) :
  Z.div_eucl (Z.shiftl (Z.pos M) 53) (Z.pos M) = (9007199254740992, 0).
Proof.
  rewrite Z.shiftl_mul_pow2 by lia. change (2 ^ 53) with 9007199254740992.
  assert (Hq : Z.pos M * 9007199254740992 / Z.pos M = 9007199254740992)
    by (rewrite Z.mul_comm; apply Z.div_mul; lia).
  assert (Hr : (Z.pos M * 9007199254740992) mod Z.pos M = 0)
    by (rewrite Z.mul_comm; apply Z.mod_mul; lia).
  unfold Z.div, Z.modulo in Hq, Hr.
  destruct (Z.div_eucl (Z.pos M * 9007199254740992) (Z.pos M)) as [q r].
  congruence.
Qed.

(** A number that holds a positive integer, divided by itself, is 1. *)
Lemma div_self (M : positive) (e : Z) :
  digits2_pos M = 53%positive ->
  div (S754_finite false M e) (S754_finite false M e)
  = S754_finite false 4503599627370496 (-52).
Proof.
  intros HM.
  unfold div, prec, emax, SFdiv, SFdiv_core_binary, Zdigits2, fexp, emin.
  rewrite HM.
  replace (Z.min (Z.max (53 + e - (53 + e) - 53) (3 - 1024 - 53)) (e - e))
    with (-53) by lia.
  replace (e - e - -53) with 53 by lia.
  rewrite div_eucl_self.
  assert (Hloc : new_location (Z.pos M) 0 = loc_Exact).
  { unfold new_location. destruct (Z.even (Z.pos M)); reflexivity. }
  rewrite Hloc. reflexivity.
Qed.

Lemma percentage_of_the_whole (z : Z) :
  0 < z < 2 ^ 53 -> percentage (of_Z z) (of_Z z) = Int 100.
Proof.
  intros [Hpos Hlt]. destruct z as [|p|p]; try lia.
  unfold percentage. rewrite (of_Z_pos p Hlt).
  rewrite (div_self _ _ (mantissa_digits p Hlt)). reflexivity.
Qed.

(** X16.  When the running total of the receiver equals the declared size
    exactly (as it does with the last chunk of a file sent by [sendFile]),
    the percentage shown is exactly 100, for every declared size from 1 up
    to 2^53, and the terminal event follows in the same call. *)
Theorem receiver_shows_100_at_exact_completion
    (rc : ReceivedChunks) (data : bytes) (declared : Z) :
  expectedSize rc = Some declared ->
  0 < declared < 2 ^ 53 ->
  totalLength (chunks rc) + byteLength data = declared ->
  snd (handleIncomingChunk rc (Binary data))
    = [Progress (Int 100);
       Download (concat (chunks rc) ++ data)
                (downloadName (expectedName rc));
       Log FileSaved] /\
  snd (Basic.handleIncomingChunk rc (Binary data))
    = [Progress (Int 100);
       Download (concat (chunks rc) ++ data)
                (downloadName (expectedName rc));
       Log FileSaved].
Proof.
  intros Hsize Hrange Htotal.
  unfold handleIncomingChunk, Basic.handleIncomingChunk,
    Basic.saveReceivedFile.
  cbn [chunks expectedSize expectedName].
  rewrite reduceByteLength_total, totalLength_app. cbn [totalLength].
  rewrite Z.add_0_r, Htotal, Hsize. cbn [geb]. rewrite Z.leb_refl.
  unfold receivePct, ToNumber.
  rewrite (percentage_of_the_whole declared Hrange).
  rewrite concat_app. cbn [concat snd app]. rewrite app_nil_r.
  split; reflexivity.
Qed.

(** X17.  For a file whose size is a positive multiple of [CHUNK_SIZE]
    (below 2^53) the last percentage [sendFile] shows is exactly 100: the
    offset then ends on the size of the file. *)
Theorem sender_ends_at_100_on_aligned_files
    (file : File) (c : Channel) (fuel : nat) (n : nat) :
  (enoughFuel file c <= fuel)%nat ->
  hd Returns (outcomes c) = Returns ->
  size file = Z.of_nat (S n) * CHUNK_SIZE ->
  size file < 2 ^ 53 ->
  exists evs : list Event,
    sendFile fuel (Some file) (Some c) = Some (evs, Resolved) /\
    length (progress evs) = S n /\
    last (progress evs) NotANumber = Int 100.
Proof.
  intros Hfuel Hmeta Hsize Hrange.
  destruct (sendFile_wire file c fuel Hfuel Hmeta)
    as (evs & Hrun & _ & Hpr & _).
  exists evs. split; [exact Hrun|].
  assert (Hn : Z.to_nat (totalChunks file) = S n).
  { unfold totalChunks. rewrite Hsize, CHUNK_SIZE_eq.
    replace ((Z.of_nat (S n) * 16384 + 16384 - 1) / 16384)
      with (Z.of_nat (S n)) by (Z.div_mod_to_equations; lia).
    apply Nat2Z.id. }
  rewrite Hpr, Hn. unfold offsetPercentages.
  split; [rewrite length_map, length_seq; reflexivity|].
  rewrite seq_S, map_app. cbn [map]. rewrite last_last. cbn [Nat.add].
  rewrite <- Hsize. unfold sendPct.
  apply percentage_of_the_whole.
  pose proof CHUNK_SIZE_pos. rewrite Hsize at 1. lia.
Qed.

End CompletionPercentage.

Section NumberWitnesses.

Import Format.

Lemma formatBytes_of_size_witness :
  0 <= 40000 < 2 ^ 53 /\ formatBytes (of_Z 40000) = Some "39.1 KB".
Proof.
  assert (H1 : 0 <= 40000 < 2 ^ 53)
    by (change (2 ^ 53) with 9007199254740992; lia).
  split; [exact H1|].
  rewrite (formatBytes_of_size 40000 H1). vm_compute. reflexivity.
Defined.

Lemma formatBytes_edges_witness :
  0 <= 512 < 1024 /\
  1048525 <= 1048575 < 1048576 /\
  1073689396 <= 1073741823 < 1073741824 /\
  formatBytes (of_Z 512) = Some "512.0 B" /\
  formatBytes (of_Z 1048575) = Some "1024.0 KB" /\
  formatBytes (of_Z 1073741823) = Some "1024.0 MB".
Proof.
  assert (H1 : 0 <= 512 < 1024) by lia.
  assert (H2 : 1048525 <= 1048575 < 1048576) by lia.
  assert (H3 : 1073689396 <= 1073741823 < 1073741824) by lia.
  repeat (split; [assumption|]).
  exact (formatBytes_edges 512 1048575 1073741823 H1 H2 H3).
Defined.

Lemma receiver_shows_100_at_exact_completion_witness :
  expectedSize {| chunks := [[x01; x02]]; expectedName := Some "a";
                  expectedSize := Some 3 |} = Some 3 /\
  0 < 3 < 2 ^ 53 /\
  totalLength [[x01; x02]] + byteLength [x03] = 3 /\
  snd (handleIncomingChunk
         {| chunks := [[x01; x02]]; expectedName := Some "a";
            expectedSize := Some 3 |} (Binary [x03]))
    = [Progress (Int 100); Download [x01; x02; x03] "a"; Log FileSaved].
Proof.
  assert (H1 : expectedSize {| chunks := [[x01; x02]];
                               expectedName := Some "a";
                               expectedSize := Some 3 |} = Some 3)
    by reflexivity.
  assert (H2 : 0 < 3 < 2 ^ 53)
    by (change (2 ^ 53) with 9007199254740992; lia).
  assert (H3 : totalLength [[x01; x02]] + byteLength [x03] = 3)
    by reflexivity.
  repeat (split; [assumption|]).
  exact (proj1 (receiver_shows_100_at_exact_completion _ [x03] 3 H1 H2 H3)).
Defined.

Lemma sender_ends_at_100_on_aligned_files_witness :
  (enoughFuel aligned unsteady <= 8)%nat /\
  hd Returns (outcomes unsteady) = Returns /\
  size aligned = Z.of_nat 2 * CHUNK_SIZE /\
  size aligned < 2 ^ 53 /\
  exists evs : list Event,
    sendFile 8 (Some aligned) (Some unsteady) = Some (evs, Resolved) /\
    length (progress evs) = 2%nat /\
    last (progress evs) NotANumber = Int 100.
Proof.
  assert (H1 : (enoughFuel aligned unsteady <= 8)%nat) by (vm_compute; lia).
  assert (H2 : hd Returns (outcomes unsteady) = Returns) by reflexivity.
  assert (H3 : size aligned = Z.of_nat 2 * CHUNK_SIZE)
    by (vm_compute; reflexivity).
  assert (H4 : size aligned < 2 ^ 53) by (vm_compute; reflexivity).
  repeat (split; [assumption|]).
  exact (sender_ends_at_100_on_aligned_files aligned unsteady 8 1
           H1 H2 H3 H4).
Defined.

End NumberWitnesses.
